(** * chimerascan: discordant-read clustering and chimera filtering

    A shallow embedding of
      - chimerascan/pipeline/cluster_discordant_reads.py
      - chimerascan/deprecated/filter_chimeras_v2.py
    together with the properties their specification states about them.

    Conventions.
      - Python integers are [Z]; strings are [string]; a float is the
        rational it denotes, in [Qc], and arithmetic on floats is exact.
      - A Python call that may raise returns a [result]; a generator is a
        [generated] value: what it yielded, then how it finished.
      - A [dict] whose iteration order matters is an association list; the
        order in which CPython walks it is a parameter [iter_order].
      - [set]s and membership-only dicts are stdpp's [gset] and [gmap]. *)

From stdpp Require Import gmap strings list fin_maps sorting.
From Stdlib Require Import Ascii ZArith QArith Qcanon Lia.

Local Open Scope Z_scope.
Set Warnings "-clear-no-such-hyp".

(** ** Python exceptions and results *)

Inductive exn : Type :=
  | StopIteration
  | NameError (name : string)
  | UnboundLocalError (name : string)
  | KeyError
  | IndexError
  | ValueError
  | TypeError
  | IOError.

(** [UnboundLocalError] is a subclass of [NameError]. *)
Definition is_NameError (e : exn) : bool :=
  match e with
  | NameError _ | UnboundLocalError _ => true
  | _ => false
  end.

Inductive result (A : Type) : Type :=
  | Ok (a : A)
  | Raise (e : exn).
Arguments Ok {A} a.
Arguments Raise {A} e.

#[global] Instance exn_eq_dec : EqDecision exn.
Proof. solve_decision. Defined.
#[global] Instance result_eq_dec {A : Type} `{EqDecision A} : EqDecision (result A).
Proof. solve_decision. Defined.

#[global] Instance result_ret : MRet result := λ A a, Ok a.
#[global] Instance result_bind : MBind result := λ A B k m,
  match m with
  | Ok a => k a
  | Raise e => Raise e
  end.

#[global] Instance result_fmap : FMap result := λ A B f m,
  match m with
  | Ok a => Ok (f a)
  | Raise e => Raise e
  end.

(** A [for] loop whose body may raise: the state is threaded through the
    iterations and the first exception ends the loop. *)
Fixpoint for_each {A S : Type} (body : S → A → result S) (xs : list A) (s : S)
  : result S :=
  match xs with
  | [] => Ok s
  | x :: xs' => s' ← body s x; for_each body xs' s'
  end.

(** What a generator produced before it stopped, and the exception (other
    than the normal exhaustion) that stopped it, if any. *)
Record generated (A : Type) : Type := Generated {
  yielded : list A;
  finish : option exn
}.
Arguments Generated {A} yielded finish.
Arguments yielded {A} g.
Arguments finish {A} g.

(** ** Association lists standing for ordered dictionaries *)

Section Dict.
Context {K V : Type} `{EqDecision K}.

Fixpoint dict_get (k : K) (d : list (K * V)) : option V :=
  match d with
  | [] => None
  | (k', v) :: d' => if decide (k = k') then Some v else dict_get k d'
  end.

(** [d[k] = v]: an existing key keeps its place, a new key goes last. *)
Fixpoint dict_set (k : K) (v : V) (d : list (K * V)) : list (K * V) :=
  match d with
  | [] => [(k, v)]
  | (k', v') :: d' =>
      if decide (k = k') then (k', v) :: d' else (k', v') :: dict_set k v d'
  end.

(** [dict(pairs)] and [OrderedDict(pairs)]. *)
Definition dict_of_items (items : list (K * V)) : list (K * V) :=
  fold_left (λ d kv, dict_set kv.1 kv.2 d) items [].
End Dict.

(** ** Strings: [str.strip], [str.split], [int] *)

Definition is_space (a : ascii) : bool :=
  bool_decide (a ∈ [" "; "009"; "010"; "011"; "012"; "013"]%char).

Fixpoint lstrip (s : string) : string :=
  match s with
  | EmptyString => EmptyString
  | String a s' => if is_space a then lstrip s' else s
  end.

(** [s.strip()] *)
Definition strip (s : string) : string :=
  String.rev (lstrip (String.rev (lstrip s))).

(** [s.split(sep)] for a one-character separator; [cur] is the field
    being read, backwards. *)
Fixpoint split_go (sep : ascii) (cur : string) (s : string) : list string :=
  match s with
  | EmptyString => [String.rev cur]
  | String a s' =>
      if decide (a = sep) then String.rev cur :: split_go sep EmptyString s'
      else split_go sep (String a cur) s'
  end.

Definition split (sep : ascii) (s : string) : list string :=
  split_go sep EmptyString s.

Definition digit_of (a : ascii) : option Z :=
  let n := Z.of_nat (nat_of_ascii a) in
  if bool_decide (48 ≤ n ≤ 57) then Some (n - 48) else None.

Fixpoint digits_go (acc : Z) (s : string) : option Z :=
  match s with
  | EmptyString => Some acc
  | String a s' =>
      match digit_of a with
      | Some d => digits_go (10 * acc + d) s'
      | None => None
      end
  end.

Definition digits (s : string) : option Z :=
  match s with
  | EmptyString => None
  | _ => digits_go 0 s
  end.

(** [int(s)] on a string: surrounding white space, an optional sign, and
    at least one decimal digit. *)
Definition py_int (s : string) : result Z :=
  let unsigned :=
    match strip s with
    | String "-"%char s' => Z.opp <$> digits s'
    | String "+"%char s' => digits s'
    | s' => digits s'
    end in
  match unsigned with
  | Some z => Ok z
  | None => Raise ValueError
  end.

(** ** pysam alignment records *)

(** Tag values of an alignment record. *)
Inductive tagval : Type :=
  | TStr (s : string)
  | TInt (z : Z).

#[global] Instance tagval_eq_dec : EqDecision tagval.
Proof. solve_decision. Defined.

(** The fields of pysam's [AlignedRead] that the module touches. *)
Record AlignedRead : Type := mkRead {
  rname : Z;
  pos : Z;
  aend : Z;
  qname : string;
  tags : list (string * tagval)
}.

#[global] Instance AlignedRead_eq_dec : EqDecision AlignedRead.
Proof. solve_decision. Defined.

(** ** cluster_discordant_reads.py *)

Module ClusterDiscordantReads.

Definition interval : Type := Z * Z * Z.

(** [window_overlap(a, b)] *)
Definition window_overlap (a b : interval) : bool :=
  let '(a0, a1, a2) := a in
  let '(b0, b1, b2) := b in
  if negb (a0 =? b0) then false
  else (a1 <=? b2) && (b1 <=? a2).

(** State of the [for r in bam_iter] loop of [cluster_loci]: the windows
    yielded so far, the current [window] and [window_range]. *)
Record loci_state : Type := LociState {
  ls_yielded : list (list AlignedRead);
  ls_window : list AlignedRead;
  ls_window_range : interval
}.

Definition cluster_loci_step (st : loci_state) (r : AlignedRead) : loci_state :=
  let interval := (rname r, pos r, aend r) in
  if negb (window_overlap interval (ls_window_range st)) then
    {| ls_yielded := ls_yielded st ++ [ls_window st];
       ls_window := [r];
       ls_window_range := (rname r, pos r, aend r) |}
  else
    {| ls_yielded := ls_yielded st;
       ls_window := ls_window st ++ [r];
       ls_window_range :=
         (rname r,
          Z.min (ls_window_range st).1.2 (pos r),
          Z.max (ls_window_range st).2 (aend r)) |}.

(** The [try] block.  It returns what was yielded inside it and the local
    [window] as the [except StopIteration: pass] leaves it: unbound ([None])
    when the very first [bam_iter.next()] raised. *)
Definition cluster_loci_try (bam_iter : list AlignedRead)
  : list (list AlignedRead) * option (list AlignedRead) :=
  match bam_iter with
  | [] => ([], None)
  | r0 :: rest =>
      let st := fold_left cluster_loci_step rest
                  {| ls_yielded := [];
                     ls_window := [r0];
                     ls_window_range := (rname r0, pos r0, aend r0) |} in
      (ls_yielded st, Some (ls_window st))
  end.

(** [cluster_loci(bam_iter)] *)
Definition cluster_loci (bam_iter : list AlignedRead)
  : generated (list AlignedRead) :=
  let '(out, window) := cluster_loci_try bam_iter in
  match window with
  | None => Generated out (Some (UnboundLocalError "window"))
  | Some w =>
      if (0 <? Z.of_nat (length w)) then Generated (out ++ [w]) None
      else Generated out None
  end.

(** The partition as the specification words it: a window seeded by a
    record, extended by every following record of the same reference whose
    interval meets the running bounds, closed by any other record. *)
Fixpoint sliding_window (ref lo hi : Z) (window : list AlignedRead)
    (rs : list AlignedRead) : list (list AlignedRead) :=
  match rs with
  | [] => [window]
  | r :: rs' =>
      if bool_decide (rname r = ref ∧ pos r ≤ hi ∧ lo ≤ aend r) then
        sliding_window ref (Z.min lo (pos r)) (Z.max hi (aend r))
          (window ++ [r]) rs'
      else
        window :: sliding_window (rname r) (pos r) (aend r) [r] rs'
  end.

(** The loci of a stream, by that wording: none for the empty stream, else
    the windows from the first record on. *)
Definition spec_loci (rs : list AlignedRead) : list (list AlignedRead) :=
  match rs with
  | [] => []
  | r0 :: rest => sliding_window (rname r0) (pos r0) (aend r0) [r0] rest
  end.

(** The sort key the clustering stage expects its input ordered by. *)
Definition sort_key_le (a b : AlignedRead) : Prop :=
  rname a < rname b ∨ (rname a = rname b ∧ pos a ≤ pos b).

Definition sorted_input (rs : list AlignedRead) : Prop :=
  Sorted sort_key_le rs.

(** Loci that keep apart: a record of a later locus on the same reference
    starts after every record of an earlier locus has ended. *)
Fixpoint separated (loci : list (list AlignedRead)) : Prop :=
  match loci with
  | [] => True
  | locus :: later =>
      (∀ a other b, a ∈ locus → other ∈ later → b ∈ other →
                    rname a = rname b → aend a < pos b)
      ∧ separated later
  end.

(** A record without its tags. *)
Definition alignment_of (r : AlignedRead) : Z * Z * Z * string :=
  (rname r, pos r, aend r, qname r).

(** *** The interval cluster tree (chimerascan.bx.cluster) *)

(** One cluster: its span and the labels of the intervals merged into it. *)
Record region : Type := Region {
  reg_start : Z;
  reg_end : Z;
  reg_labels : gset nat
}.

(** Modelled from the spec: [ClusterTree], whose implementation
    (chimerascan/bx/cluster) is not part of the sources at hand.  A tree
    holds disjoint clusters in start order; [max_gap] is the distance up to
    which an interval is merged into a cluster.  The second constructor
    argument is kept as given; the specification attaches no behaviour
    to it. *)
Record ClusterTree : Type := mkClusterTree {
  max_gap : Z;
  min_regions : Z;
  tree_regions : list region
}.

(** Modelled from the spec: the constructor [ClusterTree(mincols, minregions)]
    of the missing class, giving an empty tree. *)
Definition ClusterTree_new (mincols minregions : Z) : ClusterTree :=
  mkClusterTree mincols minregions [].

(** Modelled from the spec: the test of the missing [insert] for "overlaps,
    or lies within the max-gap": the interval [s, e] and the span of [c] are
    at most [gap] apart. *)
Definition touches (gap s e : Z) (c : region) : Prop :=
  s ≤ reg_end c + gap ∧ reg_start c ≤ e + gap.

#[global] Instance touches_dec gap s e c : Decision (touches gap s e c).
Proof. unfold touches. apply _. Defined.

(** Modelled from the spec: merging one cluster of the missing tree into
    another: the hull of the spans and the union of the labels. *)
Definition absorb (acc c : region) : region :=
  Region (Z.min (reg_start acc) (reg_start c))
         (Z.max (reg_end acc) (reg_end c))
         (reg_labels acc ∪ reg_labels c).

(** Modelled from the spec: start-ordered placement of a cluster in the
    missing tree's cluster sequence. *)
Fixpoint place (c : region) (l : list region) : list region :=
  match l with
  | [] => [c]
  | c' :: l' =>
      if bool_decide (reg_start c ≤ reg_start c') then c :: c' :: l'
      else c' :: place c l'
  end.

(** Modelled from the spec: [insert(start, end, label)] of the missing
    [ClusterTree]: the new interval is merged with every existing cluster it
    touches, the others are kept. *)
Definition insert (s e : Z) (label : nat) (t : ClusterTree) : ClusterTree :=
  let hit := filter (touches (max_gap t) s e) (tree_regions t) in
  let miss := filter (λ c, ¬ touches (max_gap t) s e c) (tree_regions t) in
  let merged := fold_left absorb hit (Region s e {[ label ]}) in
  mkClusterTree (max_gap t) (min_regions t) (place merged miss).

(** Modelled from the spec: [getregions()] of the missing [ClusterTree]: the
    clusters in start order as (start, end, set of labels). *)
Definition getregions (t : ClusterTree) : list region := tree_regions t.

(** Inserting a sequence of labelled intervals [(start, end, label)], one
    after the other, into a tree. *)
Definition insert_all (intervals : list (Z * Z * nat)) (t : ClusterTree)
  : ClusterTree :=
  fold_left (λ t i, insert i.1.1 i.1.2 i.2 t) intervals t.

(** *** add_reads_to_clusters *)

(** A cluster tuple
    [(rname, start, end, cluster_id, strand, orientation, qnames)]. *)
Record cluster : Type := Cluster {
  c_rname : Z;
  c_start : Z;
  c_end : Z;
  c_cluster_id : Z;
  c_strand : tagval;
  c_orientation : tagval;
  c_qnames : list string
}.

Definition bucket : Type := tagval * tagval.

Section AddReads.
(** Constants of chimerascan.lib.chimera, not part of the sources at hand. *)
Variables (ORIENTATION_TAG DISCORDANT_CLUSTER_TAG : string).
Variables (ORIENTATION_5P ORIENTATION_3P : tagval).
(** The order in which CPython walks a dict or a set. *)
Variable iter_order : ∀ A : Type, list A → list A.

(** [r.opt(tag)] *)
Definition opt (r : AlignedRead) (tag : string) : result tagval :=
  match dict_get tag (tags r) with
  | Some v => Ok v
  | None => Raise KeyError
  end.

(** The dict literal bound to [cluster_trees]; each value is a
    [defaultdict] from reference id to [ClusterTree(0,1)]. *)
Definition cluster_trees_init : list (bucket * list (Z * ClusterTree)) :=
  dict_of_items
    [ ((TStr "+", ORIENTATION_5P), []);
      ((TStr "+", ORIENTATION_3P), []);
      ((TStr "-", ORIENTATION_5P), []);
      ((TStr "-", ORIENTATION_3P), []) ].

(** Body of [for i,r in enumerate(reads)]. *)
Definition insert_read (trees : list (bucket * list (Z * ClusterTree)))
    (ir : nat * AlignedRead) : result (list (bucket * list (Z * ClusterTree))) :=
  let '(i, r) := ir in
  strand ← opt r "XS";
  orientation ← opt r ORIENTATION_TAG;
  match dict_get (strand, orientation) trees with
  | None => Raise KeyError
  | Some rname_trees =>
      let cluster_tree :=
        default (ClusterTree_new 0 1) (dict_get (rname r) rname_trees) in
      let cluster_tree := insert (pos r) (aend r) i cluster_tree in
      Ok (dict_set (strand, orientation)
            (dict_set (rname r) cluster_tree rname_trees) trees)
  end.

(** The three statements that put the cluster tag on a read. *)
Definition set_cluster_tag (cluster_id : Z) (r : AlignedRead) : AlignedRead :=
  let tagdict := dict_of_items (tags r) in
  let tagdict := dict_set DISCORDANT_CLUSTER_TAG (TInt cluster_id) tagdict in
  mkRead (rname r) (pos r) (aend r) (qname r) tagdict.

(** Body of [for i in indexes]: the state is [qnames] and the reads. *)
Definition tag_member (cluster_id : Z)
    (st : list string * list AlignedRead) (i : nat)
  : result (list string * list AlignedRead) :=
  let '(qnames, reads) := st in
  match reads !! i with
  | None => Raise IndexError
  | Some r => Ok (qnames ++ [qname r], <[ i := set_cluster_tag cluster_id r ]> reads)
  end.

(** State of the loops that read the clusters off the trees. *)
Record emit_state : Type := EmitState {
  es_clusters : list cluster;
  es_next_cluster_id : Z;
  es_reads : list AlignedRead
}.

(** Body of [for start, end, indexes in cluster_tree.getregions()]. *)
Definition emit_region (strand orientation : tagval) (rn : Z)
    (st : emit_state) (reg : region) : result emit_state :=
  let cluster_id := es_next_cluster_id st in
  '(qnames, reads) ← for_each (tag_member cluster_id)
                        (iter_order _ (elements (reg_labels reg)))
                        ([], es_reads st);
  Ok {| es_clusters :=
          es_clusters st ++
            [Cluster rn (reg_start reg) (reg_end reg) cluster_id
               strand orientation qnames];
        es_next_cluster_id := es_next_cluster_id st + 1;
        es_reads := reads |}.

(** Body of [for rname, cluster_tree in rname_cluster_trees.iteritems()]. *)
Definition emit_tree (strand orientation : tagval)
    (st : emit_state) (kv : Z * ClusterTree) : result emit_state :=
  for_each (emit_region strand orientation kv.1) (getregions kv.2) st.

(** Body of [for strand_orientation, rname_cluster_trees in
    cluster_trees.iteritems()]. *)
Definition emit_bucket (st : emit_state)
    (kv : bucket * list (Z * ClusterTree)) : result emit_state :=
  let '(strand, orientation) := kv.1 in
  for_each (emit_tree strand orientation) (iter_order _ kv.2) st.

(** [add_reads_to_clusters(reads, next_cluster_id)].  The reads are
    mutated in place by the function; they are returned here as a third
    component. *)
Definition add_reads_to_clusters (reads : list AlignedRead)
    (next_cluster_id : Z) : result (list cluster * Z * list AlignedRead) :=
  cluster_trees ← for_each insert_read (imap pair reads) cluster_trees_init;
  st ← for_each emit_bucket (iter_order _ cluster_trees)
         (EmitState [] next_cluster_id reads);
  Ok (es_clusters st, es_next_cluster_id st, es_reads st).

(** *** cluster_discordant_reads *)

(** An open alignment file: its reference names and its records. *)
Record Samfile : Type := mkSamfile {
  sf_references : list string;
  sf_reads : list AlignedRead
}.

(** [bamfh.getrname(tid)] *)
Definition getrname (fh : Samfile) (tid : Z) : result string :=
  if bool_decide (0 ≤ tid) then
    match sf_references fh !! Z.to_nat tid with
    | Some name => Ok name
    | None => Raise ValueError
    end
  else Raise ValueError.

(** A line of the cluster table, before its fields are turned into text
    and joined with tabs. *)
Record row : Type := Row {
  row_reference : string;
  row_start : Z;
  row_end : Z;
  row_cluster_id : Z;
  row_strand : tagval;
  row_count : Z;
  row_orientation : tagval;
  row_qnames : list string
}.

(** What a run has written, and the exception that ended it, if any. *)
Record run : Type := Run {
  run_rows : list row;
  run_records : list AlignedRead;
  run_status : option exn
}.

(** Body of [for cluster in locus_clusters]. *)
Definition print_cluster (bamfh : Samfile) (rows : list row) (c : cluster)
  : result (list row) :=
  name ← getrname bamfh (c_rname c);
  Ok (rows ++ [Row name (c_start c) (c_end c) (c_cluster_id c) (c_strand c)
                 (Z.of_nat (length (c_qnames c))) (c_orientation c)
                 (c_qnames c)]).

(** The loop [for cluster in locus_clusters]: rows printed before an
  exception stay written. *)
Fixpoint print_clusters (bamfh : Samfile) (cs : list cluster) (rows : list row)
: list row * option exn :=
match cs with
| [] => (rows, None)
| c :: cs' =>
    match print_cluster bamfh rows c with
    | Ok rows' => print_clusters bamfh cs' rows'
    | Raise e => (rows, Some e)
    end
end.

(** The loop [for locus_reads in cluster_loci(...)] over the loci the
  generator yields, from the counter value [next_cluster_id] and with
  [acc] already written.  The result is what has been written when the
  loop ends, normally or by an exception, and the last counter value. *)
Fixpoint run_loci (bamfh : Samfile) (loci : list (list AlignedRead))
  (next_cluster_id : Z) (acc : run) : run * Z :=
match loci with
| [] => (acc, next_cluster_id)
| locus_reads :: loci' =>
    match add_reads_to_clusters locus_reads next_cluster_id with
    | Raise e =>
        (Run (run_rows acc) (run_records acc) (Some e), next_cluster_id)
    | Ok (locus_clusters, next_cluster_id', locus_reads') =>
        match print_clusters bamfh locus_clusters (run_rows acc) with
        | (rows, Some e) =>
            (Run rows (run_records acc) (Some e), next_cluster_id')
        | (rows, None) =>
            run_loci bamfh loci' next_cluster_id'
              (Run rows (run_records acc ++ locus_reads') None)
        end
    end
end.

(** Objects a module-level name can be bound to. *)
Inductive pyval : Type :=
  | VSamfile (fh : Samfile)
  | VObject.

(** [cluster_discordant_reads(discordant_bam_file, concordant_bam_file,
    output_bam_file, output_cluster_file)].  [bamfh] is assigned nowhere
    in the function, so the name is looked up among the module's globals;
    the two input files are opened and not read. *)
Definition cluster_discordant_reads (globals : gmap string pyval)
    (discordant_bamfh concordant_bamfh : Samfile) : run :=
  let next_cluster_id := 0 in
  match globals !! "bamfh" with
  | None => Run [] [] (Some (NameError "bamfh"))
  | Some VObject => Run [] [] (Some TypeError)
  | Some (VSamfile bamfh) =>
      let loci := cluster_loci (sf_reads bamfh) in
      let '(r, _) := run_loci bamfh (yielded loci) next_cluster_id (Run [] [] None) in
      match run_status r with
      | Some _ => r
      | None => Run (run_rows r) (run_records r) (finish loci)
      end
  end.
End AddReads.

(** The [k] consecutive cluster ids that begin at [n]. *)
Definition ids_from (n : Z) (k : nat) : list Z :=
  (λ i : nat, n + Z.of_nat i) <$> seq 0 k.

(** The invariant of the emitting loops: the clusters emitted so far carry
    the ids from [n0] on, and the counter stands just after them. *)
Definition counted (n0 : Z) (st : emit_state) : Prop :=
  c_cluster_id <$> es_clusters st = ids_from n0 (length (es_clusters st))
  ∧ es_next_cluster_id st = n0 + Z.of_nat (length (es_clusters st)).

(** The names bound at module level by the [import] and [def] statements
    of cluster_discordant_reads.py. *)
Definition module_globals : gmap string pyval :=
  list_to_map
    ((λ name, (name, VObject)) <$>
       [ "logging"; "argparse"; "sys"; "collections"; "ClusterTree";
         "Interval"; "IntervalTree"; "pysam"; "ORIENTATION_TAG";
         "ORIENTATION_5P"; "ORIENTATION_3P"; "DISCORDANT_CLUSTER_TAG";
         "window_overlap"; "cluster_loci"; "add_reads_to_clusters";
         "cluster_discordant_reads"; "main" ]).

End ClusterDiscordantReads.

(** ** filter_chimeras_v2.py *)

Module FilterChimeras.

(** One partner of a chimera (chimerascan.lib.chimera, not part of the
    sources at hand): the fields the filters read. *)
Record Partner : Type := mkPartner {
  tx_name : string;
  p_start : Z;
  p_end : Z;
  inner_dist : Z
}.

(** A chimera candidate.  The class is not part of the sources at hand; the
    values of its getters [get_weighted_unique_frags()], [get_num_frags()],
    [get_num_unique_spanning_positions()] and [get_weighted_cov()] are
    fields here. *)
Record Chimera : Type := mkChimera {
  name : string;
  partner5p : Partner;
  partner3p : Partner;
  weighted_unique_frags : Qc;
  num_frags : Z;
  num_unique_spanning_positions : Z;
  weighted_cov : Qc
}.

#[global] Instance Partner_eq_dec : EqDecision Partner.
Proof. solve_decision. Defined.
#[global] Instance Chimera_eq_dec : EqDecision Chimera.
Proof. solve_decision. Defined.

(** An open, indexed alignment file: reference names, their lengths, and
    the region query [fetch(rname, start, end)]. *)
Record Samfile : Type := mkSamfile {
  references : list string;
  lengths : list Z;
  fetch : string → Z → Z → list AlignedRead
}.

(** [filter_weighted_frags(c, threshold)] *)
Definition filter_weighted_frags (c : Chimera) (threshold : Qc) : bool :=
  bool_decide (threshold ≤ weighted_unique_frags c)%Qc.

(** [filter_inner_dist(c, max_isize)] *)
Definition filter_inner_dist (c : Chimera) (max_isize : Z) : bool :=
  if max_isize <=? 0 then true
  else if inner_dist (partner5p c) >? max_isize then false
  else if inner_dist (partner3p c) >? max_isize then false
  else true.

(** [l.index(x)] *)
Fixpoint list_index (x : string) (l : list string) : result nat :=
  match l with
  | [] => Raise ValueError
  | y :: l' => if decide (x = y) then Ok O else S <$> list_index x l'
  end.

(** [l[i]] for a non-negative index *)
Definition list_item {A : Type} (l : list A) (i : nat) : result A :=
  match l !! i with
  | Some a => Ok a
  | None => Raise IndexError
  end.

(** The order of Python tuples of two integers. *)
Definition pair_le (a b : Z * Z) : Prop :=
  a.1 < b.1 ∨ (a.1 = b.1 ∧ a.2 ≤ b.2).

#[global] Instance pair_le_dec : RelDecision pair_le.
Proof. intros a b. unfold pair_le. apply _. Defined.

(** Body of [for r in bamfh.fetch(...)]:
    [frag_dict[r.qname].add((r.pos, r.aend))] *)
Definition add_frag (frag_dict : gmap string (gset (Z * Z))) (r : AlignedRead)
  : gmap string (gset (Z * Z)) :=
  <[ qname r := default ∅ (frag_dict !! qname r) ∪ {[ (pos r, aend r) ]} ]>
    frag_dict.

(** Body of [for qname,intervals in frag_dict.iteritems()]. *)
Definition add_wildtype (bp : Z) (wildtype_frags : gset string)
    (item : string * gset (Z * Z)) : result (gset string) :=
  let sorted_intervals := merge_sort pair_le (elements item.2) in
  first ← list_item sorted_intervals 0;
  final ← list_item sorted_intervals (length sorted_intervals - 1);
  if bool_decide (first.1 < bp ∧ bp < final.2)
  then Ok (wildtype_frags ∪ {[ item.1 ]})
  else Ok wildtype_frags.

Section Filters.
(** A constant of chimerascan.lib.config, not part of the sources at hand. *)
Variable GENE_REF_PREFIX : string.

(** [filter_chimeric_isoform_fraction(c, frac, median_isize, bamfh)] *)
Definition filter_chimeric_isoform_fraction (c : Chimera) (frac : Qc)
    (median_isize : Z) (bamfh : Samfile) : result bool :=
  let rname := GENE_REF_PREFIX +:+ tx_name (partner5p c) in
  tid ← list_index rname (references bamfh);
  rlen ← list_item (lengths bamfh) tid;
  let start := Z.max 0 (p_end (partner5p c) - median_isize) in
  let end_ := Z.min rlen (p_end (partner5p c) + median_isize) in
  let frag_dict := fold_left add_frag (fetch bamfh rname start end_) ∅ in
  wildtype_frags ← for_each (add_wildtype (p_end (partner5p c)))
                     (map_to_list frag_dict) ∅;
  let num_wildtype_frags := Z.of_nat (size wildtype_frags) in
  let num_chimeric_frags := num_frags c in
  let ratio := (Qc_of_Z num_chimeric_frags
                / Qc_of_Z (Z.max num_wildtype_frags 1))%Qc in
  Ok (bool_decide (frac ≤ ratio)%Qc).

(** The wild-type fragment count as the specification words it: the
    distinct query names among the fetched records whose records, taken
    together, have their least start below the breakpoint and their
    greatest end above it. *)
Definition spec_straddles (bp : Z) (rs : list AlignedRead) (q : string) : bool :=
  match filter (λ r, qname r = q) rs with
  | [] => false
  | r :: rest =>
      bool_decide (foldr Z.min (pos r) (pos <$> rest) < bp
                   ∧ bp < foldr Z.max (aend r) (aend <$> rest))
  end.

Definition spec_wildtype_count (bp : Z) (rs : list AlignedRead) : Z :=
  Z.of_nat (size (filter (λ q, spec_straddles bp rs q)
                    (list_to_set (qname <$> rs) : gset string))).

Definition spec_isoform_fraction (c : Chimera) (frac : Qc)
    (median_isize : Z) (bamfh : Samfile) : result bool :=
  let rname := GENE_REF_PREFIX +:+ tx_name (partner5p c) in
  tid ← list_index rname (references bamfh);
  rlen ← list_item (lengths bamfh) tid;
  let bp := p_end (partner5p c) in
  let window := fetch bamfh rname (Z.max 0 (bp - median_isize))
                  (Z.min rlen (bp + median_isize)) in
  Ok (bool_decide (frac ≤ Qc_of_Z (num_frags c)
                          / Qc_of_Z (Z.max (spec_wildtype_count bp window) 1))%Qc).

(** *** The blacklist *)

Definition false_pos_key_t : Type := string * Z * string * Z.

(** Body of [for line in open(filename)] in [read_false_pos_file]. *)
Definition add_false_pos (false_pos_chimeras : gset false_pos_key_t)
    (line : string) : result (gset false_pos_key_t) :=
  let fields := split "009"%char (strip line) in
  match fields with
  | [tx_name_5p; end5p; tx_name_3p; start3p] =>
      end5p ← py_int end5p;
      start3p ← py_int start3p;
      Ok (false_pos_chimeras ∪ {[ (tx_name_5p, end5p, tx_name_3p, start3p) ]})
  | _ => Raise ValueError
  end.

(** [read_false_pos_file(filename)], on the lines of the file. *)
Definition read_false_pos_file (lines : list string)
  : result (gset false_pos_key_t) :=
  for_each add_false_pos lines ∅.

(** [open(filename)] as a sequence of lines, in a file system [fs]. *)
Definition open_lines (fs : gmap string (list string)) (filename : string)
  : result (list string) :=
  match fs !! filename with
  | Some lines => Ok lines
  | None => Raise IOError
  end.

(** The lines of [filter_chimeras] that set [false_pos_pairs]. *)
Definition load_false_pos_pairs (fs : gmap string (list string))
    (false_pos_file : option string) : result (gset false_pos_key_t) :=
  match false_pos_file with
  | Some filename =>
      if decide (filename = "") then Ok ∅
      else lines ← open_lines fs filename; read_false_pos_file lines
  | None => Ok ∅
  end.

Definition false_pos_key (c : Chimera) : false_pos_key_t :=
  (tx_name (partner5p c), p_end (partner5p c),
   tx_name (partner3p c), p_start (partner3p c)).

(** The test [false_pos_key not in false_pos_pairs]. *)
Definition filter_false_pos (c : Chimera) (false_pos_pairs : gset false_pos_key_t)
  : bool :=
  bool_decide (false_pos_key c ∉ false_pos_pairs).

(** The filter parameters of [filter_chimeras]. *)
Record params : Type := mkParams {
  par_weighted_unique_frags : Qc;
  par_median_isize : Z;
  par_max_isize : Z;
  par_isoform_fraction : Qc
}.

(** The chain of tests in the first loop of [filter_chimeras]: the value of
    [good] for one candidate, each [continue] giving [False]. *)
Definition check_chimera (par : params) (bamfh : Samfile)
    (false_pos_pairs : gset false_pos_key_t) (c : Chimera) : result bool :=
  let good := filter_weighted_frags c (par_weighted_unique_frags par) in
  if negb good then Ok false else
  let good := good && filter_inner_dist c (par_max_isize par) in
  if negb good then Ok false else
  let good := good && filter_false_pos c false_pos_pairs in
  if negb good then Ok false else
  iso ← filter_chimeric_isoform_fraction c (par_isoform_fraction par)
          (par_median_isize par) bamfh;
  Ok (good && iso).

(** Body of the first loop: a passing candidate is printed to the
    temporary file. *)
Definition write_if_good (par : params) (bamfh : Samfile)
    (false_pos_pairs : gset false_pos_key_t)
    (written : list Chimera) (c : Chimera) : result (list Chimera) :=
  good ← check_chimera par bamfh false_pos_pairs c;
  Ok (if (good : bool) then written ++ [c] else written).
End Filters.

(** *** get_highest_coverage_isoforms *)

(** The tuple [(unique spanning positions, weighted coverage, fragments)]. *)
Definition stats : Type := Z * Qc * Z.

(** The tuple [key] of the first loop: the name, then the [stats]. *)
Definition stats_info : Type := string * stats.

(** The order of Python tuples on [stats]. *)
Definition stats_le (a b : stats) : Prop :=
  a.1.1 < b.1.1 ∨
  (a.1.1 = b.1.1 ∧ ((a.1.2 < b.1.2)%Qc ∨ (a.1.2 = b.1.2 ∧ a.2 ≤ b.2))).

#[global] Instance stats_le_dec : RelDecision stats_le.
Proof. intros a b. unfold stats_le. apply _. Defined.

Definition chimera_stats (c : Chimera) : stats :=
  (num_unique_spanning_positions c, weighted_cov c, num_frags c).

(** [d[k]] on a plain dict *)
Definition dict_item {K V : Type} `{Countable K} (d : gmap K V) (k : K)
  : result V :=
  match d !! k with
  | Some v => Ok v
  | None => Raise KeyError
  end.

(** Body of [for stats_info in stats_list]:
    [stats_dict[stats_info[1:]].add(stats_info[0])] *)
Definition index_name (stats_dict : gmap stats (gset string))
    (si : stats_info) : gmap stats (gset string) :=
  <[ si.2 := default ∅ (stats_dict !! si.2) ∪ {[ si.1 ]} ]> stats_dict.

(** Body of [for stats_list in cluster_chimera_dict.itervalues()].  A
    descending sort stands for [sorted(..., reverse=True)]; the keys of a
    dict are distinct. *)
Definition keep_best (kept_chimeras : gset string)
    (stats_list : list stats_info) : result (gset string) :=
  let stats_dict := fold_left index_name stats_list ∅ in
  let sorted_keys := merge_sort (flip stats_le) (map_to_list stats_dict).*1 in
  k ← list_item sorted_keys 0;
  Ok (kept_chimeras ∪ default ∅ (stats_dict !! k)).

Section Isoforms.
(** The type of a genome position, and the two tables built by
    chimerascan.lib.gene_to_genome (not part of the sources at hand) from
    the gene file: the transcript-to-cluster map and the coordinate
    translation with its table applied. *)
Context {coord : Type} `{Countable coord}.
Variable tx_cluster_map : gmap string Z.
Variable gene_to_genome_pos : string → Z → result coord.

Definition group_t : Type := Z * Z * coord * coord.

(** The key under which [c] is filed in [cluster_chimera_dict]. *)
Definition group_key (c : Chimera) : result group_t :=
  cluster5p ← dict_item tx_cluster_map (tx_name (partner5p c));
  cluster3p ← dict_item tx_cluster_map (tx_name (partner3p c));
  coord5p ← gene_to_genome_pos (tx_name (partner5p c)) (p_end (partner5p c) - 1);
  coord3p ← gene_to_genome_pos (tx_name (partner3p c)) (p_start (partner3p c));
  Ok (cluster5p, cluster3p, coord5p, coord3p).

(** Body of [for c in Chimera.parse(open(input_file))]. *)
Definition add_chimera (cluster_chimera_dict : gmap group_t (list stats_info))
    (c : Chimera) : result (gmap group_t (list stats_info)) :=
  let key := (name c, chimera_stats c) in
  g ← group_key c;
  Ok (<[ g := default [] (cluster_chimera_dict !! g) ++ [key] ]>
        cluster_chimera_dict).

(** [get_highest_coverage_isoforms(input_file, gene_file)], on the parsed
    candidates of the input file. *)
Definition get_highest_coverage_isoforms (input : list Chimera)
  : result (gset string) :=
  cluster_chimera_dict ← for_each add_chimera input ∅;
  for_each keep_best (map_to_list cluster_chimera_dict).*2 ∅.

(** The last lines of [filter_chimeras]: the candidates of the temporary
    file whose name is among the kept ones. *)
Definition select_isoforms (tmp : list Chimera) : result (list Chimera) :=
  kept_chimeras ← get_highest_coverage_isoforms tmp;
  Ok (filter (λ c, name c ∈ kept_chimeras) tmp).

(** *** filter_chimeras *)

Variable GENE_REF_PREFIX : string.

(** [filter_chimeras(...)]: the candidates written to [output_file].  The
    temporary file is read back as it was written. *)
Definition filter_chimeras (fs : gmap string (list string))
    (input : list Chimera) (bamfh : Samfile) (par : params)
    (false_pos_file : option string) : result (list Chimera) :=
  false_pos_pairs ← load_false_pos_pairs fs false_pos_file;
  tmp ← for_each (write_if_good GENE_REF_PREFIX par bamfh false_pos_pairs)
          input [];
  select_isoforms tmp.
End Isoforms.

End FilterChimeras.

(** * Loops that may raise *)

Lemma for_each_app {A S : Type} (body : S → A → result S) xs ys s :
  for_each body (xs ++ ys) s = (s' ← for_each body xs s; for_each body ys s').
Proof.
  revert s. induction xs as [|x xs IH]; intros s; simpl; [done|].
  destruct (body s x) as [s1|e]; simpl; [apply IH | done].
Qed.

(** An invariant kept by every iteration that returns holds when the loop
    returns. *)
Lemma for_each_invariant {A S : Type} (P : S → Prop) (body : S → A → result S) :
  (∀ s x s', P s → body s x = Ok s' → P s') →
  ∀ xs s s', P s → for_each body xs s = Ok s' → P s'.
Proof.
  intros Hbody xs. induction xs as [|x xs IH]; intros s s' Hs Hrun; simpl in Hrun.
  - by inversion Hrun; subst.
  - destruct (body s x) as [s1|e] eqn:Hx; simpl in Hrun; [|done].
    eapply IH; [|exact Hrun]. eauto.
Qed.

(** A loop raises [e0] when one of its items makes the body raise in every
    state the loop can be in, and the body raises nothing but [e0]. *)
Lemma for_each_raises {A S : Type} (I : S → Prop) (body : S → A → result S)
    (e0 : exn) (x : A) :
  (∀ s y s', I s → body s y = Ok s' → I s') →
  (∀ s y e, body s y = Raise e → e = e0) →
  (∀ s, I s → body s x = Raise e0) →
  ∀ xs s, I s → x ∈ xs → for_each body xs s = Raise e0.
Proof.
  intros Hkeep Honly Hx xs. induction xs as [|y xs IH]; intros s Hs Hin.
  - by apply elem_of_nil in Hin.
  - simpl. destruct (body s y) as [s'|e] eqn:Hy; simpl.
    + apply elem_of_cons in Hin as [->|Hin].
      * by rewrite (Hx s Hs) in Hy.
      * apply IH; [by eapply Hkeep | done].
    + by rewrite (Honly _ _ _ Hy).
Qed.

(** * Properties of cluster_discordant_reads.py *)

Module ClusterDiscordantReadsSpec.
Import ClusterDiscordantReads.

(** ** cluster_loci *)

Lemma window_overlap_spec (r : AlignedRead) (ref lo hi : Z) :
  window_overlap (rname r, pos r, aend r) (ref, lo, hi)
  = bool_decide (rname r = ref ∧ pos r ≤ hi ∧ lo ≤ aend r).
Proof.
  unfold window_overlap.
  destruct (Z.eqb_spec (rname r) ref) as [->|Hne]; simpl.
  - destruct (Z.leb_spec (pos r) hi), (Z.leb_spec lo (aend r)); simpl;
      symmetry; (apply bool_decide_eq_true_2 || apply bool_decide_eq_false_2); lia.
  - symmetry. apply bool_decide_eq_false_2. intros [? _]. done.
Qed.

Lemma cluster_loci_step_spec out w ref lo hi r :
  cluster_loci_step (LociState out w (ref, lo, hi)) r
  = if bool_decide (rname r = ref ∧ pos r ≤ hi ∧ lo ≤ aend r)
    then LociState out (w ++ [r]) (ref, Z.min lo (pos r), Z.max hi (aend r))
    else LociState (out ++ [w]) [r] (rname r, pos r, aend r).
Proof.
  unfold cluster_loci_step.
  cbn [ls_yielded ls_window ls_window_range fst snd].
  rewrite window_overlap_spec.
  case_bool_decide as Hov; simpl; [|done].
  by destruct Hov as [-> _].
Qed.

(** The loop of the source, run from any state, closes exactly the windows
    of the worded partition. *)
Lemma cluster_loci_loop_sliding rest :
  ∀ out w ref lo hi,
    let st := fold_left cluster_loci_step rest (LociState out w (ref, lo, hi)) in
    ls_yielded st ++ [ls_window st] = out ++ sliding_window ref lo hi w rest.
Proof.
  induction rest as [|r rest IH]; intros out w ref lo hi; [done|].
  cbn [fold_left sliding_window].
  rewrite cluster_loci_step_spec.
  case_bool_decide as Hov.
  - apply IH.
  - cbv zeta in IH. rewrite IH. by rewrite <- app_assoc.
Qed.

Lemma cluster_loci_loop_nonempty rest :
  ∀ st, ls_window st ≠ [] →
        ls_window (fold_left cluster_loci_step rest st) ≠ [].
Proof.
  induction rest as [|r rest IH]; intros st Hst; simpl; [done|].
  apply IH. unfold cluster_loci_step.
  destruct (negb _); simpl; [done|]. by destruct (ls_window st).
Qed.

Lemma cluster_loci_cons r0 rest :
  cluster_loci (r0 :: rest)
  = Generated (sliding_window (rname r0) (pos r0) (aend r0) [r0] rest) None.
Proof.
  unfold cluster_loci, cluster_loci_try.
  pose proof (cluster_loci_loop_sliding rest [] [r0] (rname r0) (pos r0) (aend r0)) as Hloop.
  pose proof (cluster_loci_loop_nonempty rest
                (LociState [] [r0] (rname r0, pos r0, aend r0))) as Hne.
  simpl in Hloop, Hne.
  destruct (ls_window _) as [|x w] eqn:Hw; [by exfalso; apply Hne|].
  replace (0 <? Z.of_nat (length (x :: w))) with true
    by (symmetry; apply Z.ltb_lt; simpl; lia).
  by rewrite Hloop.
Qed.

Lemma sliding_window_concat rest :
  ∀ ref lo hi w, concat (sliding_window ref lo hi w rest) = w ++ rest.
Proof.
  induction rest as [|r rest IH]; intros ref lo hi w; simpl.
  - by rewrite !app_nil_r.
  - case_bool_decide; simpl; rewrite IH; [by rewrite <- app_assoc | done].
Qed.

(** C7.  On a non-empty stream [cluster_loci] yields exactly the
    sliding-window partition: the window is seeded with the first record's
    reference id, start and end; a following record of the same reference
    whose interval meets the running bounds joins the window and widens the
    bounds to the least start and the greatest end; any other record closes
    the window and seeds the next.  The loci, concatenated, are the stream.
    The records (chr1,0,10), (chr1,5,15), (chr1,50,60) give the two loci
    {record1, record2} and {record3}. *)
Theorem cluster_loci_sliding_window :
  (∀ r0 rest,
     cluster_loci (r0 :: rest)
     = Generated (sliding_window (rname r0) (pos r0) (aend r0) [r0] rest) None
     ∧ yielded (cluster_loci (r0 :: rest)) = spec_loci (r0 :: rest)
     ∧ concat (yielded (cluster_loci (r0 :: rest))) = r0 :: rest)
  ∧ (∀ ref lo hi w r rest,
       sliding_window ref lo hi w (r :: rest)
       = if bool_decide (rname r = ref ∧ pos r ≤ hi ∧ lo ≤ aend r)
         then sliding_window ref (Z.min lo (pos r)) (Z.max hi (aend r))
                (w ++ [r]) rest
         else w :: sliding_window (rname r) (pos r) (aend r) [r] rest)
  ∧ (∀ ref lo hi w, sliding_window ref lo hi w [] = [w])
  ∧ (∀ chr1 q1 q2 q3 t1 t2 t3,
       let record1 := mkRead chr1 0 10 q1 t1 in
       let record2 := mkRead chr1 5 15 q2 t2 in
       let record3 := mkRead chr1 50 60 q3 t3 in
       cluster_loci [record1; record2; record3]
       = Generated [[record1; record2]; [record3]] None).
Proof.
  split; [|split; [|split]].
  - intros r0 rest. split; [apply cluster_loci_cons|].
    rewrite cluster_loci_cons. simpl. split; [done|]. apply sliding_window_concat.
  - done.
  - done.
  - intros chr1 q1 q2 q3 t1 t2 t3 record1 record2 record3.
    rewrite cluster_loci_cons. simpl.
    rewrite bool_decide_eq_true_2 by (simpl; lia). simpl.
    rewrite bool_decide_eq_false_2 by (simpl; lia). done.
Qed.

Lemma cluster_loci_concat r0 rest :
  concat (yielded (cluster_loci (r0 :: rest))) = r0 :: rest.
Proof. rewrite cluster_loci_cons. simpl. apply sliding_window_concat. Qed.

(** C10.  On an empty record iterator the first [next()] raises
    [StopIteration] with the local [window] still unbound, and the check
    after the loop raises the unbound-local [NameError]: nothing is
    yielded. *)
Theorem cluster_loci_empty_raises_NameError :
  cluster_loci_try [] = ([], None)
  ∧ yielded (cluster_loci []) = []
  ∧ finish (cluster_loci []) = Some (UnboundLocalError "window")
  ∧ is_NameError (UnboundLocalError "window") = true.
Proof. by repeat split. Qed.

(** Counterexample to C2 as stated: the stream (0,50,60), (0,0,10) breaks
    the sort order, and [cluster_loci] yields two loci and finishes without
    any exception. *)
Lemma cluster_loci_unsorted_not_fatal :
  let a := mkRead 0 50 60 "a" [] in
  let b := mkRead 0 0 10 "b" [] in
  ¬ sorted_input [a; b]
  ∧ cluster_loci [a; b] = Generated [[a]; [b]] None.
Proof.
  split; [|reflexivity].
  intros Hs. inversion Hs as [|x l _ Hhd]; subst.
  inversion Hhd as [|y l' Hle]; subst.
  unfold sort_key_le in Hle; simpl in Hle. lia.
Qed.

(** C2, amended.  [cluster_loci] makes no check of the order of its input:
    on every non-empty stream, sorted or not, it finishes without an
    exception and its loci, concatenated, are the stream in its own
    order. *)
Theorem cluster_loci_never_checks_order (r0 : AlignedRead) (rest : list AlignedRead) :
  finish (cluster_loci (r0 :: rest)) = None
  ∧ concat (yielded (cluster_loci (r0 :: rest))) = r0 :: rest.
Proof.
  rewrite cluster_loci_cons. simpl. split; [done|]. apply sliding_window_concat.
Qed.

(** ** The cluster-id counter *)

Lemma ids_from_app n j k :
  ids_from n (j + k) = ids_from n j ++ ids_from (n + Z.of_nat j) k.
Proof.
  unfold ids_from. rewrite seq_app, fmap_app. f_equal.
  replace (0 + j)%nat with (j + 0)%nat by lia.
  rewrite <- (fmap_add_seq j 0 k), <- list_fmap_compose.
  apply list_fmap_ext. intros _ i _. simpl. lia.
Qed.

Lemma ids_from_snoc n k : ids_from n (k + 1) = ids_from n k ++ [n + Z.of_nat k].
Proof.
  rewrite ids_from_app. f_equal. unfold ids_from. simpl. f_equal. lia.
Qed.

Lemma ids_from_length n k : length (ids_from n k) = k.
Proof. unfold ids_from. by rewrite length_fmap, length_seq. Qed.

Lemma ids_from_take n j k : take j (ids_from n k) = ids_from n (j `min` k).
Proof.
  unfold ids_from. rewrite <- fmap_take. f_equal.
  rewrite take_seq. done.
Qed.

Lemma ids_from_lower n k x : x ∈ ids_from n k → n ≤ x < n + Z.of_nat k.
Proof.
  unfold ids_from. intros [i [-> Hi]]%list_elem_of_fmap.
  apply elem_of_seq in Hi. lia.
Qed.

Lemma ids_from_increasing k : ∀ n, StronglySorted Z.lt (ids_from n k).
Proof.
  induction k as [|k IH]; intros n; [constructor|].
  replace (S k) with (1 + k)%nat by done. rewrite ids_from_app.
  change (ids_from n 1) with [n + 0]. simpl. constructor; [apply IH|].
  apply Forall_forall. intros x Hx%ids_from_lower. lia.
Qed.

Lemma ids_from_NoDup n k : NoDup (ids_from n k).
Proof.
  unfold ids_from. apply NoDup_fmap_2; [|apply NoDup_seq].
  intros i j ?. lia.
Qed.

Section Counter.
Variables (ORIENTATION_TAG DISCORDANT_CLUSTER_TAG : string).
Variables (ORIENTATION_5P ORIENTATION_3P : tagval).
Variable iter_order : ∀ A : Type, list A → list A.

Local Abbreviation add_reads_to_clusters :=
  (add_reads_to_clusters ORIENTATION_TAG DISCORDANT_CLUSTER_TAG
     ORIENTATION_5P ORIENTATION_3P iter_order).
Local Abbreviation run_loci :=
  (run_loci ORIENTATION_TAG DISCORDANT_CLUSTER_TAG
     ORIENTATION_5P ORIENTATION_3P iter_order).
Local Abbreviation cluster_discordant_reads :=
  (cluster_discordant_reads ORIENTATION_TAG DISCORDANT_CLUSTER_TAG
     ORIENTATION_5P ORIENTATION_3P iter_order).

Lemma emit_region_counted n0 strand orientation rn st reg st' :
  counted n0 st →
  emit_region DISCORDANT_CLUSTER_TAG iter_order strand orientation rn st reg = Ok st' →
  counted n0 st'.
Proof.
  intros [Hids Hnext]. unfold emit_region.
  destruct (for_each _ _ _) as [[qnames reads]|e]; simpl; [|done].
  intros [= <-]. unfold counted. simpl.
  rewrite fmap_app, length_app, ids_from_snoc, Hids, Hnext. simpl.
  split; [done|]. rewrite Nat2Z.inj_add. lia.
Qed.

Lemma emit_bucket_counted n0 st kv st' :
  counted n0 st →
  emit_bucket DISCORDANT_CLUSTER_TAG iter_order st kv = Ok st' →
  counted n0 st'.
Proof.
  unfold emit_bucket. destruct kv as [[strand orientation] trees]. simpl.
  apply for_each_invariant. intros s [rn tree] s'. unfold emit_tree. simpl.
  apply for_each_invariant. intros ???. apply emit_region_counted.
Qed.

Lemma add_reads_to_clusters_counted reads next clusters next' reads' :
  add_reads_to_clusters reads next = Ok (clusters, next', reads') →
  c_cluster_id <$> clusters = ids_from next (length clusters)
  ∧ next' = next + Z.of_nat (length clusters).
Proof.
  unfold ClusterDiscordantReads.add_reads_to_clusters.
  destruct (for_each _ _ _) as [trees|e]; simpl; [|done].
  destruct (for_each _ _ _) as [st|e] eqn:Hemit; simpl; [|done].
  intros [= <- <- <-].
  eapply (for_each_invariant (counted next)) in Hemit; [exact Hemit| |].
  - intros ???. apply emit_bucket_counted.
  - split; simpl; [done | lia].
Qed.

Lemma print_clusters_ids bamfh cs :
  ∀ rows rows' status,
    print_clusters bamfh cs rows = (rows', status) →
    ∃ k, (k ≤ length cs)%nat
         ∧ row_cluster_id <$> rows'
           = (row_cluster_id <$> rows) ++ (c_cluster_id <$> take k cs)
         ∧ (status = None → k = length cs).
Proof.
  induction cs as [|c cs IH]; intros rows rows' status; simpl.
  - intros [= <- <-]. exists O. by rewrite app_nil_r.
  - unfold print_cluster. destruct (getrname bamfh (c_rname c)) as [nm|e]; simpl.
    + intros (k & Hk & Hids & Hst)%IH. exists (S k). split; [lia|].
      split; [|intros ?; f_equal; auto].
      rewrite Hids, fmap_app. simpl. by rewrite <- app_assoc.
    + intros [= <- <-]. exists O. split; [lia|]. by rewrite app_nil_r.
Qed.

Lemma run_loci_ids bamfh loci :
  ∀ next acc,
    row_cluster_id <$> run_rows acc = ids_from 0 (length (run_rows acc)) →
    next = Z.of_nat (length (run_rows acc)) →
    let rows := run_rows (run_loci bamfh loci next acc).1 in
    row_cluster_id <$> rows = ids_from 0 (length rows).
Proof.
  induction loci as [|locus loci IH]; intros next acc Hacc Hnext; simpl; [done|].
  destruct (add_reads_to_clusters locus next) as [[[cs next'] reads']|e] eqn:Hadd;
    simpl; [|done].
  apply add_reads_to_clusters_counted in Hadd as [Hcs Hnext'].
  destruct (print_clusters bamfh cs (run_rows acc)) as [rows status] eqn:Hprint.
  apply print_clusters_ids in Hprint as (k & Hk & Hids & Hst).
  assert (Hrows : row_cluster_id <$> rows = ids_from 0 (length rows)).
  { pose proof (f_equal length Hids) as Hlen.
    rewrite length_app, !length_fmap, length_take in Hlen.
    rewrite Hids, Hacc, fmap_take, Hcs, ids_from_take, Hlen, ids_from_app.
    do 2 f_equal. lia. }
  destruct status as [e|]; simpl; [done|].
  apply IH; simpl; [done|].
  pose proof (f_equal length Hids) as Hlen.
  rewrite length_app, !length_fmap, length_take in Hlen.
  rewrite (Hst eq_refl) in Hlen. lia.
Qed.

(** C1.  Each call of [add_reads_to_clusters] gives the clusters it emits,
    in emission order, the consecutive ids that begin at the counter it
    was passed, and returns that counter increased by the number of
    clusters emitted.  The loop over the loci starts from 0 and passes the
    returned counter on to the next locus, so the ids of the rows of a whole
    run, in the order they are printed, are 0, 1, 2, ...: strictly
    increasing and never repeated, across loci and buckets, whether the run
    ends normally or by an exception. *)
Theorem cluster_ids_consecutive_and_unique
    (reads : list AlignedRead) (next_cluster_id : Z)
    (clusters : list cluster) (next' : Z) (reads' : list AlignedRead)
    (Hcall : add_reads_to_clusters reads next_cluster_id
             = Ok (clusters, next', reads'))
    (bamfh : Samfile) (loci : list (list AlignedRead))
    (globals : gmap string pyval) (discordant_bamfh concordant_bamfh : Samfile) :
  (c_cluster_id <$> clusters = ids_from next_cluster_id (length clusters)
   ∧ next' = next_cluster_id + Z.of_nat (length clusters))
  ∧ (let ids := row_cluster_id <$>
                  run_rows (run_loci bamfh loci 0 (Run [] [] None)).1 in
     ids = ids_from 0 (length ids) ∧ StronglySorted Z.lt ids ∧ NoDup ids)
  ∧ (let ids := row_cluster_id <$>
                  run_rows (cluster_discordant_reads globals
                              discordant_bamfh concordant_bamfh) in
     ids = ids_from 0 (length ids) ∧ StronglySorted Z.lt ids ∧ NoDup ids).
Proof.
  assert (Hrun : ∀ fh l,
    let ids := row_cluster_id <$> run_rows (run_loci fh l 0 (Run [] [] None)).1 in
    ids = ids_from 0 (length ids) ∧ StronglySorted Z.lt ids ∧ NoDup ids).
  { intros fh l ids.
    assert (Hids : ids = ids_from 0 (length ids)).
    { subst ids. rewrite length_fmap. by apply run_loci_ids. }
    split; [done|]. rewrite Hids.
    split; [apply ids_from_increasing | apply ids_from_NoDup]. }
  split; [exact (add_reads_to_clusters_counted _ _ _ _ _ Hcall)|].
  split; [apply Hrun|].
  unfold ClusterDiscordantReads.cluster_discordant_reads.
  destruct (globals !! "bamfh") as [[fh|]|]; simpl;
    try (split; [done|split; constructor]).
  specialize (Hrun fh (yielded (cluster_loci (sf_reads fh)))). simpl in Hrun.
  destruct (run_loci _ _ _ _) as [r n]. simpl in Hrun.
  by destruct (run_status r).
Qed.

(** C9.  Whatever the two input files hold, [cluster_discordant_reads]
    raises a [NameError] for [bamfh] on reaching its loop: the name is bound
    neither in the function nor at module level.  No cluster row and no
    tagged record has been written by then. *)
Theorem cluster_discordant_reads_raises_NameError
    (discordant_bamfh concordant_bamfh : Samfile) :
  module_globals !! "bamfh" = None
  ∧ cluster_discordant_reads module_globals discordant_bamfh concordant_bamfh
    = Run [] [] (Some (NameError "bamfh"))
  ∧ is_NameError (NameError "bamfh") = true.
Proof.
  assert (Hunbound : module_globals !! "bamfh" = None) by (vm_compute; reflexivity).
  split; [done|]. split; [|done].
  unfold ClusterDiscordantReads.cluster_discordant_reads. by rewrite Hunbound.
Qed.
End Counter.

(** A call of [add_reads_to_clusters] that returns: three tagged reads,
    counter at 7, two clusters with the ids 7 and 8, counter 9 returned. *)
Lemma cluster_ids_consecutive_and_unique_witness :
  let r1 := mkRead 0 0 10 "a" [("XS", TStr "+"); ("XO", TInt 1)] in
  let r2 := mkRead 0 5 15 "b" [("XS", TStr "+"); ("XO", TInt 1)] in
  let r3 := mkRead 0 50 60 "c" [("XS", TStr "-"); ("XO", TInt 2)] in
  ∃ clusters reads',
    add_reads_to_clusters "XO" "XC" (TInt 1) (TInt 2) (λ _ l, l) [r1; r2; r3] 7
    = Ok (clusters, 9, reads')
    ∧ c_cluster_id <$> clusters = [7; 8].
Proof.
  intros r1 r2 r3.
  destruct (add_reads_to_clusters "XO" "XC" (TInt 1) (TInt 2) (λ _ l, l)
              [r1; r2; r3] 7) as [[[clusters next'] reads']|e] eqn:Hcall;
    [|by vm_compute in Hcall].
  assert (Hlen : length clusters = 2%nat ∧ next' = 9).
  { vm_compute in Hcall. by injection Hcall as <- <- <-. }
  destruct Hlen as [Hlen ->].
  exists clusters, reads'. split; [done|].
  destruct (cluster_ids_consecutive_and_unique "XO" "XC" (TInt 1) (TInt 2)
              (λ _ l, l) [r1; r2; r3] 7 clusters 9 reads' Hcall
              (mkSamfile [] []) [] ∅ (mkSamfile [] []) (mkSamfile [] []))
    as [[Hids _] _].
  rewrite Hids, Hlen. reflexivity.
Defined.

(** ** The interval cluster tree *)

Lemma insert_regions s e label gap m rs :
  insert s e label (mkClusterTree gap m rs)
  = mkClusterTree gap m
      (place (fold_left absorb (filter (touches gap s e) rs)
                (Region s e {[ label ]}))
             (filter (λ c, ¬ touches gap s e c) rs)).
Proof. done. Qed.

(** Evaluation of an insertion at known coordinates, the labels left as
    they are. *)
Ltac tree_steps :=
  repeat first
    [ rewrite filter_nil
    | rewrite filter_cons_True by (unfold touches; cbn; lia)
    | rewrite filter_cons_False by (unfold touches; cbn; lia)
    | rewrite bool_decide_eq_true_2 by (cbn; lia)
    | rewrite bool_decide_eq_false_2 by (cbn; lia)
    | progress cbn [fold_left place absorb reg_start reg_end reg_labels
                    Z.min Z.max Z.compare Pos.compare Pos.compare_cont] ].

(** C8.  Inserted into one tree [ClusterTree(0,1)] in any of their six
    orders, the intervals [5,10], [9,14] and [20,25] give exactly two
    clusters: [5,14] holding the labels of the first two intervals and
    [20,25] holding the label of the third. *)
Theorem cluster_merge_order_independent (a b c : nat)
    (order : list (Z * Z * nat))
    (Horder : order ≡ₚ [(5, 10, a); (9, 14, b); (20, 25, c)]) :
  getregions (insert_all order (ClusterTree_new 0 1))
  = [Region 5 14 {[a; b]}; Region 20 25 {[c]}].
Proof.
  symmetry in Horder. apply permutations_Permutation in Horder.
  cbn in Horder.
  repeat (apply elem_of_cons in Horder as [->|Horder]);
    [..|by apply elem_of_nil in Horder];
    unfold insert_all, getregions, ClusterTree_new;
    cbn [fold_left fst snd]; rewrite !insert_regions;
    cbn [max_gap min_regions tree_regions]; tree_steps;
    unfold absorb; cbn [reg_start reg_end reg_labels];
    do 2 f_equal; first [done | apply (comm_L (∪))].
Qed.

(** The order [20,25], [9,14], [5,10], with labels 0, 1, 2 for the three
    intervals. *)
Lemma cluster_merge_order_independent_witness :
  getregions (insert_all [(20, 25, 2%nat); (9, 14, 1%nat); (5, 10, 0%nat)]
                (ClusterTree_new 0 1))
  = [Region 5 14 {[0%nat; 1%nat]}; Region 20 25 {[2%nat]}].
Proof.
  apply (cluster_merge_order_independent 0 1 2).
  exact (Permutation_sym
           (Permutation_rev [(5, 10, 0%nat); (9, 14, 1%nat); (20, 25, 2%nat)])).
Defined.

End ClusterDiscordantReadsSpec.

(** * Properties of filter_chimeras_v2.py *)

Module FilterChimerasSpec.
Import FilterChimeras.

(** ** The inner-distance filter *)

(** C4.  [filter_inner_dist] passes a candidate exactly when [max_isize] is
    not positive, or the inner distances of both partners are at most
    [max_isize]; with [max_isize] not positive every candidate passes,
    whatever its inner distances. *)
Theorem filter_inner_dist_spec (c : Chimera) (max_isize : Z) :
  (filter_inner_dist c max_isize = true
   ↔ max_isize ≤ 0
     ∨ (inner_dist (partner5p c) ≤ max_isize
        ∧ inner_dist (partner3p c) ≤ max_isize))
  ∧ (max_isize ≤ 0 → filter_inner_dist c max_isize = true).
Proof.
  unfold filter_inner_dist.
  destruct (Z.leb_spec max_isize 0) as [Hm|Hm].
  - split; [split; [intros _; by left | done] | done].
  - split; [|lia].
    destruct (Z.gtb_spec (inner_dist (partner5p c)) max_isize) as [H5|H5].
    { split; [done | lia]. }
    destruct (Z.gtb_spec (inner_dist (partner3p c)) max_isize) as [H3|H3].
    { split; [done | lia]. }
    split; [intros _; right; lia | done].
Qed.

(** A candidate with inner distances 5000 and 7000 passes at
    [max_isize = 0]. *)
Lemma filter_inner_dist_spec_witness :
  filter_inner_dist
    (mkChimera "C1" (mkPartner "TX1" 0 50 5000) (mkPartner "TX2" 7 300 7000)
       (Qc_of_Z 3) 1 5 (Qc_of_Z 4)) 0 = true.
Proof.
  apply (proj2 (filter_inner_dist_spec
                  (mkChimera "C1" (mkPartner "TX1" 0 50 5000)
                     (mkPartner "TX2" 7 300 7000) (Qc_of_Z 3) 1 5 (Qc_of_Z 4)) 0)).
  lia.
Defined.

(** ** The blacklist *)

Section Blacklist.
Context {coord : Type} `{Countable coord}.
Variable tx_cluster_map : gmap string Z.
Variable gene_to_genome_pos : string → Z → result coord.
Variable GENE_REF_PREFIX : string.

Lemma blacklisted_fails_check (par : params) (bamfh : Samfile)
    (false_pos_pairs : gset false_pos_key_t) (c : Chimera) :
  false_pos_key c ∈ false_pos_pairs →
  check_chimera GENE_REF_PREFIX par bamfh false_pos_pairs c = Ok false.
Proof.
  intros Hk. unfold check_chimera, filter_false_pos.
  rewrite (bool_decide_eq_false_2 _ (λ Hn, Hn Hk)).
  destruct (filter_weighted_frags _ _); [|done].
  by destruct (filter_inner_dist _ _).
Qed.

(** Whatever the first loop has written was there before or passed the
    chain of filters. *)
Lemma write_if_good_sound (par : params) (bamfh : Samfile)
    (false_pos_pairs : gset false_pos_key_t) (input : list Chimera) :
  ∀ written tmp,
    for_each (write_if_good GENE_REF_PREFIX par bamfh false_pos_pairs)
      input written = Ok tmp →
    ∀ c, c ∈ tmp →
         c ∈ written
         ∨ check_chimera GENE_REF_PREFIX par bamfh false_pos_pairs c = Ok true.
Proof.
  induction input as [|c0 input IH]; intros written tmp; simpl.
  - intros [= <-] c Hc. by left.
  - destruct (write_if_good GENE_REF_PREFIX par bamfh false_pos_pairs written c0)
      as [written'|e] eqn:Hstep; simpl; [|done].
    unfold write_if_good in Hstep.
    destruct (check_chimera GENE_REF_PREFIX par bamfh false_pos_pairs c0)
      as [good|e] eqn:Hcheck; simpl in Hstep; [|done].
    injection Hstep as <-.
    intros Hrun c Hc. destruct (IH _ _ Hrun c Hc) as [Hin|?]; [|by right].
    destruct good; [|by left].
    apply elem_of_app in Hin as [?|Hin]; [by left|].
    apply list_elem_of_singleton in Hin as ->. by right.
Qed.

(** C5.  The blacklist test fails exactly for a candidate whose tuple
    (5' transcript, 5' breakpoint, 3' transcript, 3' breakpoint) is a member
    of the false-positive set.  Such a candidate is never written,
    whatever the numeric filters say, and none is among the candidates
    [filter_chimeras] puts out; for a candidate whose tuple is not a member
    the chain of filters gives what it gives with an empty blacklist. *)
Theorem blacklist_filter_exact (par : params) (bamfh : Samfile)
    (false_pos_pairs : gset false_pos_key_t) (c : Chimera) :
  (filter_false_pos c false_pos_pairs = false
   ↔ (tx_name (partner5p c), p_end (partner5p c),
      tx_name (partner3p c), p_start (partner3p c)) ∈ false_pos_pairs)
  ∧ (false_pos_key c ∈ false_pos_pairs →
     check_chimera GENE_REF_PREFIX par bamfh false_pos_pairs c = Ok false
     ∧ ∀ written,
         write_if_good GENE_REF_PREFIX par bamfh false_pos_pairs written c
         = Ok written)
  ∧ (false_pos_key c ∉ false_pos_pairs →
     filter_false_pos c false_pos_pairs = true
     ∧ check_chimera GENE_REF_PREFIX par bamfh false_pos_pairs c
       = check_chimera GENE_REF_PREFIX par bamfh ∅ c)
  ∧ (∀ fs input false_pos_file output,
       load_false_pos_pairs fs false_pos_file = Ok false_pos_pairs →
       filter_chimeras tx_cluster_map gene_to_genome_pos GENE_REF_PREFIX
         fs input bamfh par false_pos_file = Ok output →
       c ∈ output → false_pos_key c ∉ false_pos_pairs).
Proof.
  split; [|split; [|split]].
  - unfold filter_false_pos. fold (false_pos_key c).
    rewrite bool_decide_eq_false. split; [apply dec_stable | by intros ? ?].
  - intros Hk. split; [by apply blacklisted_fails_check|].
    intros written. unfold write_if_good.
    by rewrite (blacklisted_fails_check _ _ _ _ Hk).
  - intros Hk. unfold check_chimera, filter_false_pos.
    rewrite (bool_decide_eq_true_2 _ Hk).
    by rewrite (bool_decide_eq_true_2 (false_pos_key c ∉ (∅ : gset _)))
      by set_solver.
  - intros fs input false_pos_file output Hload. unfold filter_chimeras.
    rewrite Hload. simpl.
    destruct (for_each _ input []) as [tmp|e] eqn:Hloop; simpl; [|done].
    unfold select_isoforms.
    destruct (get_highest_coverage_isoforms _ _ tmp) as [kept|e]; simpl; [|done].
    intros [= <-] [_ Hc]%list_elem_of_filter Hk.
    destruct (write_if_good_sound _ _ _ _ _ _ Hloop c Hc) as [Hnil|Hgood].
    + by apply elem_of_nil in Hnil.
    + by rewrite (blacklisted_fails_check _ _ _ _ Hk) in Hgood.
Qed.
End Blacklist.

(** A candidate that passes the three numeric filters and whose tuple is
    read from the blacklist file is not written. *)
Lemma blacklist_filter_exact_witness :
  let c := mkChimera "C1" (mkPartner "TX1" 0 50 10) (mkPartner "TX2" 7 300 10)
             (Qc_of_Z 3) 1 5 (Qc_of_Z 4) in
  let par := mkParams (Qc_of_Z 3) 200 1000 (Q2Qc (1 # 10)) in
  let bamfh := mkSamfile ["gene_TX1"] [1000] (λ _ _ _, []) in
  ∃ false_pos_pairs,
    read_false_pos_file ["TX1" +:+ String "009" ("50" +:+ String "009"
                           ("TX2" +:+ String "009" ("7" +:+ String "010" "")))]
    = Ok false_pos_pairs
    ∧ check_chimera "gene_" par bamfh ∅ c = Ok true
    ∧ check_chimera "gene_" par bamfh false_pos_pairs c = Ok false.
Proof.
  intros c par bamfh.
  exists {[ ("TX1", 50, "TX2", 7) ]}.
  split; [vm_compute; reflexivity|].
  split; [vm_compute; reflexivity|].
  apply (proj1 (proj2 (blacklist_filter_exact (∅ : gmap string Z)
                         (λ _ p, Ok p) "gene_" par bamfh
                         {[ ("TX1", 50, "TX2", 7) ]} c))).
  apply elem_of_singleton. reflexivity.
Defined.

(** ** The wild-type isoform ratio *)

(** Where every fragment is a read followed by a mate that starts and ends
    later, the source and the wording agree: one wild-type fragment spans
    the breakpoint 50, the other lies before it, and a candidate with one
    chimeric fragment passes at fraction 3/4 by both. *)
Lemma isoform_fraction_on_ordered_reads :
  let c := mkChimera "C1" (mkPartner "TX1" 0 50 10) (mkPartner "TX2" 7 300 10)
             (Qc_of_Z 3) 1 5 (Qc_of_Z 4) in
  let window := [ mkRead 0 0 30 "f1" []; mkRead 0 40 70 "f1" [];
                  mkRead 0 5 20 "f2" []; mkRead 0 25 45 "f2" [] ] in
  let bamfh := mkSamfile ["gene_TX1"] [1000] (λ _ _ _, window) in
  spec_wildtype_count 50 window = 1
  ∧ spec_isoform_fraction "gene_" c (Q2Qc (3 # 4)) 200 bamfh = Ok true
  ∧ filter_chimeric_isoform_fraction "gene_" c (Q2Qc (3 # 4)) 200 bamfh = Ok true.
Proof. vm_compute. done. Qed.

(** C6, at an input where the source departs from it.  Two wild-type
    fragments each have a read from 0 to 100 and a mate from 10 to 20, so
    each spans the breakpoint 50; one chimeric fragment; fraction 3/4.  The
    ratio 1 / max(2, 1) is below 3/4 and the filter should fail.  The
    source takes the end of the read that sorts last, 20, for the greatest
    end, counts no wild-type fragment, and passes the candidate. *)
Theorem isoform_fraction_misses_nested_reads :
  let c := mkChimera "C1" (mkPartner "TX1" 0 50 10) (mkPartner "TX2" 7 300 10)
             (Qc_of_Z 3) 1 5 (Qc_of_Z 4) in
  let window := [ mkRead 0 0 100 "f1" []; mkRead 0 10 20 "f1" [];
                  mkRead 0 0 100 "f2" []; mkRead 0 10 20 "f2" [] ] in
  let bamfh := mkSamfile ["gene_TX1"] [1000] (λ _ _ _, window) in
  spec_wildtype_count 50 window = 2
  ∧ spec_isoform_fraction "gene_" c (Q2Qc (3 # 4)) 200 bamfh = Ok false
  ∧ filter_chimeric_isoform_fraction "gene_" c (Q2Qc (3 # 4)) 200 bamfh = Ok true.
Proof. vm_compute. done. Qed.

(** ** The order on the ranking tuples *)

Lemma Qclt_irrefl (x : Qc) : ¬ (x < x)%Qc.
Proof. intros Hx. exact (Qclt_not_le _ _ Hx (Qcle_refl x)). Qed.

Lemma Qclt_asym (x y : Qc) : (x < y)%Qc → ¬ (y < x)%Qc.
Proof. intros Hxy Hyx. exact (Qclt_irrefl x (Qclt_trans _ _ _ Hxy Hyx)). Qed.

#[local] Instance stats_le_refl : Reflexive stats_le.
Proof. intros [[a1 a2] a3]. unfold stats_le. simpl. right. split; [done|]. right. done. Qed.

#[local] Instance stats_le_total : Total stats_le.
Proof.
  intros [[a1 a2] a3] [[b1 b2] b3]. unfold stats_le. simpl.
  destruct (Z.lt_trichotomy a1 b1) as [?|[->|?]]; [by left; left| |by right; left].
  destruct (Qc_dec a2 b2) as [[?|?]| ->].
  - left. right. split; [done|]. by left.
  - right. right. split; [done|]. by left.
  - destruct (Z.le_ge_cases a3 b3).
    + left. right. split; [done|]. right. done.
    + right. right. split; [done|]. right. done.
Qed.

#[local] Instance stats_le_trans : Transitive stats_le.
Proof.
  intros [[a1 a2] a3] [[b1 b2] b3] [[c1 c2] c3]. unfold stats_le. simpl.
  intros [H1|[-> [H1|[-> H1]]]] [H2|[-> [H2|[-> H2]]]];
    first [ left; lia
          | right; split; [done|];
            first [ left; by eauto using Qclt_trans
                  | right; split; [done|lia] ] ].
Qed.

Lemma stats_le_antisym (a b : stats) : stats_le a b → stats_le b a → a = b.
Proof.
  destruct a as [[a1 a2] a3], b as [[b1 b2] b3]. unfold stats_le. simpl.
  intros [H1|[-> [H1|[-> H1]]]] [H2|[H2 [H3|[H3 H4]]]]; try lia;
    try (by destruct (Qclt_asym _ _ H1));
    try (by subst; destruct (Qclt_irrefl _ H1));
    try (by subst; destruct (Qclt_irrefl _ H3)).
  do 2 f_equal. lia.
Qed.

#[local] Instance flip_stats_le_total : Total (flip stats_le).
Proof. intros a b. unfold flip. destruct (total stats_le a b); auto. Qed.

#[local] Instance flip_stats_le_trans : Transitive (flip stats_le).
Proof. intros a b c ??. unfold flip in *. by etrans. Qed.

(** The first element of the keys sorted in descending order is the
    greatest key. *)
Lemma sorted_desc_head (keys : list stats) :
  keys ≠ [] →
  ∃ k, list_item (merge_sort (flip stats_le) keys) 0 = Ok k
       ∧ k ∈ keys ∧ ∀ k', k' ∈ keys → stats_le k' k.
Proof.
  intros Hne.
  pose proof (StronglySorted_merge_sort (flip stats_le) keys) as Hsorted.
  pose proof (merge_sort_Permutation (flip stats_le) keys) as Hperm.
  destruct (merge_sort (flip stats_le) keys) as [|k l].
  { symmetry in Hperm. by apply Permutation_nil_r in Hperm. }
  exists k. split; [done|]. split.
  - rewrite <- Hperm. by left.
  - intros k' Hk'. rewrite <- Hperm in Hk'.
    apply elem_of_cons in Hk' as [->|Hk']; [done|].
    inversion Hsorted as [|?? _ Hall]; subst.
    rewrite Forall_forall in Hall. by apply Hall.
Qed.

(** ** Indexing the names of a group by their tuple *)

Lemma index_name_lookup (d : gmap stats (gset string)) (si : stats_info) (k : stats) :
  index_name d si !! k
  = if decide (si.2 = k) then Some (default ∅ (d !! si.2) ∪ {[ si.1 ]})
    else d !! k.
Proof. unfold index_name. apply lookup_insert. Qed.

Lemma index_names_elem (l : list stats_info) :
  ∀ (d : gmap stats (gset string)) k n,
    n ∈ default ∅ (fold_left index_name l d !! k)
    ↔ n ∈ default ∅ (d !! k) ∨ (n, k) ∈ l.
Proof.
  induction l as [|[n0 k0] l IH]; intros d k n; simpl.
  - rewrite elem_of_nil. tauto.
  - rewrite IH, index_name_lookup, elem_of_cons. simpl.
    case_decide as Hk; simpl.
    + subst k0. rewrite elem_of_union, elem_of_singleton. naive_solver.
    + naive_solver.
Qed.

Lemma index_names_is_Some (l : list stats_info) :
  ∀ (d : gmap stats (gset string)) k,
    is_Some (fold_left index_name l d !! k)
    ↔ is_Some (d !! k) ∨ ∃ n, (n, k) ∈ l.
Proof.
  induction l as [|[n0 k0] l IH]; intros d k; simpl.
  - split; [auto|]. intros [?|[n Hn]]; [done|]. by apply elem_of_nil in Hn.
  - rewrite IH, index_name_lookup. simpl. case_decide as Hk.
    + subst k0. split; [intros _|by eauto].
      right. exists n0. by left.
    + split.
      * intros [?|[n Hn]]; [by left|]. right. exists n. by right.
      * intros [?|[n Hn]]; [by left|]. right. exists n.
        apply elem_of_cons in Hn as [Heq|Hn]; [by simplify_eq | done].
Qed.

(** [best n l]: the name [n] stands in [l] with a tuple that no tuple of
    [l] exceeds. *)
Lemma keep_best_spec (kept : gset string) (l : list stats_info) :
  l ≠ [] →
  ∃ kept', keep_best kept l = Ok kept'
           ∧ ∀ n, n ∈ kept'
                  ↔ n ∈ kept
                    ∨ ∃ k, (n, k) ∈ l ∧ ∀ n' k', (n', k') ∈ l → stats_le k' k.
Proof.
  intros Hne. unfold keep_best.
  set (d := fold_left index_name l ∅).
  assert (Hkeys : ∀ k, k ∈ (map_to_list d).*1 ↔ ∃ n, (n, k) ∈ l).
  { intros k. rewrite list_elem_of_fmap. split.
    - intros [[k' s] [-> Hin%elem_of_map_to_list]]. simpl.
      assert (is_Some (d !! k')) as Hs by eauto.
      apply index_names_is_Some in Hs as [Hs|Hs]; [|done].
      rewrite lookup_empty in Hs. by destruct Hs.
    - intros Hn. assert (is_Some (d !! k)) as [s Hs].
      { apply index_names_is_Some. by right. }
      exists (k, s). split; [done|]. by apply elem_of_map_to_list. }
  destruct (sorted_desc_head (map_to_list d).*1) as (k & -> & Hk & Hmax).
  { destruct l as [|[n0 k0] l']; [done|].
    intros Hnil. assert (k0 ∈ (map_to_list d).*1) as Hin.
    { apply Hkeys. exists n0. by left. }
    rewrite Hnil in Hin. by apply elem_of_nil in Hin. }
  simpl. eexists. split; [done|]. intros n.
  rewrite elem_of_union. subst d. rewrite index_names_elem, lookup_empty. simpl.
  rewrite elem_of_empty. split.
  - intros [?|[[]|Hn]]; [by left|]. right. exists k. split; [done|].
    intros n' k' Hin. apply Hmax, Hkeys. eauto.
  - intros [?|(k0 & Hn & Hk0)]; [by left|]. right. right.
    apply Hkeys in Hk as [n1 Hn1].
    assert (k0 = k) as ->; [|done].
    apply stats_le_antisym; [|by eapply Hk0].
    apply Hmax, Hkeys. eauto.
Qed.

(** ** Grouping and selection *)

Lemma keep_best_all (ls : list (list stats_info)) :
  ∀ kept, Forall (λ l, l ≠ []) ls →
    ∃ kept', for_each keep_best ls kept = Ok kept'
             ∧ ∀ n, n ∈ kept'
                    ↔ n ∈ kept
                      ∨ ∃ l k, l ∈ ls ∧ (n, k) ∈ l
                               ∧ ∀ n' k', (n', k') ∈ l → stats_le k' k.
Proof.
  induction ls as [|l ls IH]; intros kept Hne; simpl.
  - exists kept. split; [done|]. intros n. split; [auto|].
    intros [?|(l & k & Hl & _)]; [done|]. by apply elem_of_nil in Hl.
  - apply Forall_cons in Hne as [Hl Hls].
    destruct (keep_best_spec kept l Hl) as (kept1 & -> & H1). simpl.
    destruct (IH kept1 Hls) as (kept' & -> & H2).
    exists kept'. split; [done|]. intros n. rewrite H2, H1. split.
    + intros [[?|(k & Hk & Hmax)]|(l' & k & Hl' & Hk & Hmax)]; [by left| |].
      * right. exists l, k. split; [by left|done].
      * right. exists l', k. split; [by right|done].
    + intros [?|(l' & k & Hl' & Hk & Hmax)]; [by left; left|].
      apply elem_of_cons in Hl' as [->|Hl'].
      * left. right. eauto.
      * right. eauto 6.
Qed.

Section Isoforms.
Context {coord : Type} `{Countable coord}.
Variable tx_cluster_map : gmap string Z.
Variable gene_to_genome_pos : string → Z → result coord.

Local Abbreviation group_key := (group_key tx_cluster_map gene_to_genome_pos).
Local Abbreviation add_chimera := (add_chimera tx_cluster_map gene_to_genome_pos).
Local Abbreviation get_highest_coverage_isoforms :=
  (get_highest_coverage_isoforms tx_cluster_map gene_to_genome_pos).
Local Abbreviation select_isoforms :=
  (select_isoforms tx_cluster_map gene_to_genome_pos).

Lemma add_chimera_Ok (d : gmap group_t (list stats_info)) c g :
  group_key c = Ok g →
  add_chimera d c
  = Ok (<[ g := default [] (d !! g) ++ [(name c, chimera_stats c)] ]> d).
Proof. intros Hg. unfold FilterChimeras.add_chimera. by rewrite Hg. Qed.

(** The first loop files every candidate under its key, in input order. *)
Lemma add_chimeras_spec (input : list Chimera) :
  ∀ d : gmap group_t (list stats_info),
    Forall (λ c, ∃ g, group_key c = Ok g) input →
    ∃ d', for_each add_chimera input d = Ok d'
          ∧ (∀ g, default [] (d' !! g)
                  = default [] (d !! g)
                    ++ ((λ c, (name c, chimera_stats c))
                          <$> filter (λ c, group_key c = Ok g) input))
          ∧ (map_Forall (λ _ l, l ≠ []) d → map_Forall (λ _ l, l ≠ []) d').
Proof.
  induction input as [|c input IH]; intros d Hkeys; simpl.
  - exists d. split; [done|]. split; [|done]. intros g. by rewrite app_nil_r.
  - apply Forall_cons in Hkeys as [[g0 Hg0] Hkeys].
    rewrite (add_chimera_Ok _ _ _ Hg0). simpl.
    destruct (IH (<[g0 := default [] (d !! g0) ++ [(name c, chimera_stats c)]]> d)
                Hkeys) as (d' & -> & Hlists & Hne).
    exists d'. split; [done|]. split.
    + intros g. rewrite Hlists, lookup_insert, filter_cons.
      case_decide as Hg.
      * subst g0. rewrite decide_True by done. simpl.
        by rewrite <- app_assoc.
      * rewrite decide_False by (rewrite Hg0; congruence). done.
    + intros Hd. apply Hne. apply map_Forall_insert_2; [|done].
      by destruct (default [] (d !! g0)).
Qed.

Lemma get_highest_coverage_isoforms_spec (input : list Chimera) :
  Forall (λ c, ∃ g, group_key c = Ok g) input →
  ∃ kept, get_highest_coverage_isoforms input = Ok kept
          ∧ ∀ n, n ∈ kept
                 ↔ ∃ c g, c ∈ input ∧ name c = n ∧ group_key c = Ok g
                          ∧ ∀ c', c' ∈ input → group_key c' = Ok g →
                                  stats_le (chimera_stats c') (chimera_stats c).
Proof.
  intros Hkeys. unfold FilterChimeras.get_highest_coverage_isoforms.
  destruct (add_chimeras_spec input ∅ Hkeys) as (d & -> & Hlists & Hne). simpl.
  specialize (Hne (map_Forall_empty _)).
  assert (Hgroup : ∀ g l, d !! g = Some l →
            l = (λ c, (name c, chimera_stats c))
                  <$> filter (λ c, group_key c = Ok g) input).
  { intros g l Hl. specialize (Hlists g).
    by rewrite Hl, lookup_empty in Hlists. }
  destruct (keep_best_all (map_to_list d).*2 ∅) as (kept & -> & Hkept).
  { apply Forall_forall. intros l [[g l'] [-> Hin]]%list_elem_of_fmap.
    apply elem_of_map_to_list in Hin. by eapply Hne. }
  exists kept. split; [done|]. intros n. rewrite Hkept, elem_of_empty.
  unfold stats_info in *. split.
  - intros [[]|(l & k & [[g l'] [-> Hin]]%list_elem_of_fmap & Hk & Hmax)].
    apply elem_of_map_to_list in Hin. simpl in *.
    rewrite (Hgroup _ _ Hin) in Hk, Hmax.
    apply list_elem_of_fmap in Hk as (c & [= -> ->] & [Hg Hc]%list_elem_of_filter).
    exists c, g. repeat split; [done..|].
    intros c' Hc' Hg'. apply (Hmax (name c')).
    apply list_elem_of_fmap. exists c'. split; [done|].
    by apply list_elem_of_filter.
  - intros (c & g & Hc & <- & Hg & Hmax). right.
    assert (Hin : (name c, chimera_stats c)
                  ∈ (λ c, (name c, chimera_stats c))
                      <$> filter (λ c, group_key c = Ok g) input).
    { apply list_elem_of_fmap. exists c. split; [done|].
      by apply list_elem_of_filter. }
    destruct (d !! g) as [l|] eqn:Hl.
    + exists l, (chimera_stats c). split.
      { apply list_elem_of_fmap. exists (g, l). split; [done|].
        by apply elem_of_map_to_list. }
      rewrite (Hgroup _ _ Hl). split; [done|].
      intros n' k' [c' [[= -> ->] [Hg' Hc']%list_elem_of_filter]]%list_elem_of_fmap.
        by apply Hmax.
    + specialize (Hlists g). rewrite Hl, lookup_empty in Hlists. simpl in Hlists.
      rewrite <- Hlists in Hin. by apply elem_of_nil in Hin.
Qed.

(** C3, amended.  The candidates are grouped by (5' cluster, 3' cluster,
    5' genome breakpoint, 3' genome breakpoint); in each group the names of
    the candidates whose tuple (unique spanning positions, weighted
    coverage, fragments) is the greatest of the group are collected, all of
    them when several tie; the output is every candidate, in input order,
    whose name was collected in some group.  When no two candidates share
    a name, the output is exactly the candidates whose tuple is the
    greatest of their own group. *)
Theorem highest_coverage_isoforms_kept (input : list Chimera)
    (Hkeys : Forall (λ c, ∃ g, group_key c = Ok g) input) :
  ∃ kept,
    get_highest_coverage_isoforms input = Ok kept
    ∧ select_isoforms input = Ok (filter (λ c, name c ∈ kept) input)
    ∧ (∀ n, n ∈ kept
            ↔ ∃ c g, c ∈ input ∧ name c = n ∧ group_key c = Ok g
                     ∧ ∀ c', c' ∈ input → group_key c' = Ok g →
                             stats_le (chimera_stats c') (chimera_stats c))
    ∧ ((∀ c c', c ∈ input → c' ∈ input → name c = name c' → c = c') →
       ∀ c, c ∈ filter (λ c, name c ∈ kept) input
            ↔ c ∈ input
              ∧ ∀ c', c' ∈ input → group_key c' = group_key c →
                      stats_le (chimera_stats c') (chimera_stats c)).
Proof.
  destruct (get_highest_coverage_isoforms_spec input Hkeys) as (kept & Hrun & Hkept).
  exists kept. split; [done|]. split.
  { unfold FilterChimeras.select_isoforms. by rewrite Hrun. }
  split; [done|].
  intros Hnames c. rewrite list_elem_of_filter, Hkept. split.
  - intros [(c0 & g & Hc0 & Hn & Hg & Hmax) Hc]. split; [done|].
    assert (c0 = c) as -> by by apply Hnames.
    intros c' Hc' Hg'. apply Hmax; [done|]. by rewrite Hg'.
  - intros [Hc Hmax]. split; [|done].
    rewrite Forall_forall in Hkeys. destruct (Hkeys c Hc) as [g Hg].
    exists c, g. repeat split; [done..|].
    intros c' Hc' Hg'. apply Hmax; [done|]. by rewrite Hg, Hg'.
Qed.
End Isoforms.

(** Counterexample to C3 as stated.  Two candidates of one group carry the
    same name; the first has 5 unique spanning positions, the second 3.
    The second does not reach the greatest tuple of the group and is
    retained all the same. *)
Lemma same_name_keeps_lower_isoform :
  let tx_cluster_map : gmap string Z := {[ "TX1" := 1; "TX2" := 2 ]} in
  let gene_to_genome_pos (tx : string) (p : Z) : result Z := Ok p in
  let c1 := mkChimera "C1" (mkPartner "TX1" 0 50 10) (mkPartner "TX2" 7 300 10)
              (Qc_of_Z 3) 4 5 (Qc_of_Z 4) in
  let c2 := mkChimera "C1" (mkPartner "TX1" 0 50 10) (mkPartner "TX2" 7 300 10)
              (Qc_of_Z 3) 4 3 (Qc_of_Z 4) in
  group_key tx_cluster_map gene_to_genome_pos c1
  = group_key tx_cluster_map gene_to_genome_pos c2
  ∧ ¬ stats_le (chimera_stats c1) (chimera_stats c2)
  ∧ select_isoforms tx_cluster_map gene_to_genome_pos [c1; c2] = Ok [c1; c2].
Proof.
  intros tx_cluster_map gene_to_genome_pos c1 c2.
  split; [reflexivity|]. split.
  - unfold stats_le. simpl. intros [?|[? _]]; lia.
  - vm_compute. reflexivity.
Qed.

(** Three candidates of one group with distinct names and 3, 5 and 5 unique
    spanning positions: the two with 5 are retained. *)
Lemma highest_coverage_isoforms_kept_witness :
  let tx_cluster_map : gmap string Z := {[ "TX1" := 1; "TX2" := 2 ]} in
  let gene_to_genome_pos (tx : string) (p : Z) : result Z := Ok p in
  let mk nm span := mkChimera nm (mkPartner "TX1" 0 50 10)
                      (mkPartner "TX2" 7 300 10) (Qc_of_Z 3) 4 span (Qc_of_Z 4) in
  ∃ kept,
    get_highest_coverage_isoforms tx_cluster_map gene_to_genome_pos
      [mk "C1" 3; mk "C2" 5; mk "C3" 5] = Ok kept
    ∧ select_isoforms tx_cluster_map gene_to_genome_pos
        [mk "C1" 3; mk "C2" 5; mk "C3" 5]
      = Ok (filter (λ c, name c ∈ kept) [mk "C1" 3; mk "C2" 5; mk "C3" 5])
    ∧ select_isoforms tx_cluster_map gene_to_genome_pos
        [mk "C1" 3; mk "C2" 5; mk "C3" 5]
      = Ok [mk "C2" 5; mk "C3" 5].
Proof.
  intros tx_cluster_map gene_to_genome_pos mk.
  destruct (highest_coverage_isoforms_kept tx_cluster_map gene_to_genome_pos
              [mk "C1" 3; mk "C2" 5; mk "C3" 5]) as (kept & Hrun & Hsel & _).
  { repeat (apply Forall_cons; split; [by eexists|]). constructor. }
  exists kept. split; [done|]. split; [done|].
  vm_compute. reflexivity.
Defined.

End FilterChimerasSpec.

(** * Further properties of cluster_discordant_reads.py *)

Module ClusterDiscordantReadsMore.
Import ClusterDiscordantReads ClusterDiscordantReadsSpec.

(** ** window_overlap and cluster_loci *)

(** [window_overlap] does not depend on the order of its arguments. *)
Theorem window_overlap_sym (a b : interval) :
  window_overlap a b = window_overlap b a.
Proof.
  destruct a as [[a0 a1] a2], b as [[b0 b1] b2]. unfold window_overlap.
  rewrite (Z.eqb_sym b0 a0). destruct (a0 =? b0); simpl; [|done].
  apply andb_comm.
Qed.

Lemma sliding_window_loci rs :
  ∀ ref lo hi w,
    w ≠ [] → (∀ a, a ∈ w → rname a = ref) →
    ∀ locus, locus ∈ sliding_window ref lo hi w rs →
             locus ≠ [] ∧ ∀ a b, a ∈ locus → b ∈ locus → rname a = rname b.
Proof.
  induction rs as [|r rs IH]; intros ref lo hi w Hne Hw locus; simpl.
  - intros ->%list_elem_of_singleton. split; [done|].
    intros a b Ha Hb. by rewrite (Hw a Ha), (Hw b Hb).
  - case_bool_decide as Hov.
    + apply IH; [by destruct w|].
      intros a [Ha| ->%list_elem_of_singleton]%elem_of_app; [by apply Hw|].
      by destruct Hov.
    + intros [->|Hin]%elem_of_cons.
      * split; [done|]. intros a b Ha Hb. by rewrite (Hw a Ha), (Hw b Hb).
      * revert Hin. apply IH; [done|].
        by intros a ->%list_elem_of_singleton.
Qed.

(** Every locus [cluster_loci] yields holds at least one record, and all
    the records of a locus lie on one reference. *)
Theorem cluster_loci_locus_one_reference (bam_iter : list AlignedRead)
    (locus : list AlignedRead) (Hlocus : locus ∈ yielded (cluster_loci bam_iter)) :
  locus ≠ [] ∧ ∀ a b, a ∈ locus → b ∈ locus → rname a = rname b.
Proof.
  destruct bam_iter as [|r0 rest]; [by apply elem_of_nil in Hlocus|].
  rewrite cluster_loci_cons in Hlocus. simpl in Hlocus.
  revert Hlocus. apply sliding_window_loci; [done|].
  by intros a ->%list_elem_of_singleton.
Qed.

Lemma cluster_loci_locus_one_reference_witness :
  let a := mkRead 0 0 10 "a" [] in
  let b := mkRead 0 5 15 "b" [] in
  let c := mkRead 1 5 15 "c" [] in
  [a; b] ≠ [] ∧ ∀ x y, x ∈ [a; b] → y ∈ [a; b] → rname x = rname y.
Proof.
  intros a b c.
  apply (cluster_loci_locus_one_reference [a; b; c]).
  vm_compute. left.
Defined.

#[local] Instance sort_key_le_trans : Transitive sort_key_le.
Proof. intros a b c. unfold sort_key_le. lia. Qed.

Lemma elem_of_sliding_window rs ref lo hi w locus b :
  locus ∈ sliding_window ref lo hi w rs → b ∈ locus → b ∈ w ++ rs.
Proof.
  intros Hlocus Hb. rewrite <- (sliding_window_concat rs ref lo hi w).
  apply list_elem_of_In, in_concat. exists locus.
  split; by apply list_elem_of_In.
Qed.

Lemma sliding_window_separated rs :
  ∀ ref lo hi w,
    (∀ a, a ∈ w → rname a = ref ∧ aend a ≤ hi) →
    StronglySorted sort_key_le rs →
    Forall (λ r, pos r ≤ aend r) rs →
    Forall (λ r, ref < rname r ∨ (rname r = ref ∧ lo ≤ pos r)) rs →
    separated (sliding_window ref lo hi w rs).
Proof.
  induction rs as [|r rs IH]; intros ref lo hi w Hw Hsorted Hwf Hafter; simpl.
  - split; [|done]. intros a other b _ Hother. by apply elem_of_nil in Hother.
  - apply StronglySorted_inv in Hsorted as [Hsorted Hr].
    apply Forall_cons in Hwf as [Hwf_r Hwf].
    apply Forall_cons in Hafter as [Hafter_r Hafter].
    rewrite Forall_forall in Hr.
    case_bool_decide as Hov.
    + destruct Hov as (Href & Hhi & Hlo).
      apply IH; [|done|done|].
      * intros a [Ha| ->%list_elem_of_singleton]%elem_of_app.
        -- destruct (Hw a Ha). lia.
        -- lia.
      * apply Forall_forall. intros b Hb.
        specialize (Hr b Hb). unfold sort_key_le in Hr. lia.
    + split.
      * intros a other b Ha Hother Hb Hab.
        destruct (Hw a Ha) as [Ha_ref Ha_hi].
        assert (sort_key_le r b) as Hrb.
        { apply (elem_of_sliding_window _ _ _ _ _ _ _ Hother) in Hb.
          apply elem_of_cons in Hb as [->|Hb]; [|by apply Hr].
          right. lia. }
        unfold sort_key_le in Hrb. lia.
      * apply IH; [|done|done|].
        -- intros a ->%list_elem_of_singleton. lia.
        -- apply Forall_forall. intros b Hb.
           specialize (Hr b Hb). unfold sort_key_le in Hr. lia.
Qed.

(** On a stream sorted by (reference id, start) whose records end no
    earlier than they start, the loci keep apart: a record in a later locus
    on the same reference starts after every record of an earlier locus
    has ended, so records of different loci never overlap. *)
Theorem cluster_loci_sorted_separated (bam_iter : list AlignedRead)
    (Hsorted : sorted_input bam_iter)
    (Hwf : Forall (λ r, pos r ≤ aend r) bam_iter) :
  separated (yielded (cluster_loci bam_iter)).
Proof.
  destruct bam_iter as [|r0 rest]; [done|].
  rewrite cluster_loci_cons. simpl.
  apply Sorted_StronglySorted in Hsorted; [|apply _].
  apply StronglySorted_inv in Hsorted as [Hsorted Hr0].
  apply Forall_cons in Hwf as [Hwf0 Hwf].
  apply sliding_window_separated; [|done|done|].
  - intros a ->%list_elem_of_singleton. lia.
  - rewrite Forall_forall in Hr0. apply Forall_forall. intros b Hb.
    specialize (Hr0 b Hb). unfold sort_key_le in Hr0. lia.
Qed.

Lemma cluster_loci_sorted_separated_witness :
  let a := mkRead 0 0 10 "a" [] in
  let b := mkRead 0 5 15 "b" [] in
  let c := mkRead 0 50 60 "c" [] in
  separated (yielded (cluster_loci [a; b; c])).
Proof.
  intros a b c. apply cluster_loci_sorted_separated.
  - repeat constructor; unfold sort_key_le; simpl; lia.
  - repeat constructor; simpl; lia.
Defined.

(** ** Dictionaries *)

Lemma dict_get_set_eq {K V : Type} `{EqDecision K} (k : K) (v : V) d :
  dict_get k (dict_set k v d) = Some v.
Proof.
  induction d as [|[k' v'] d IH]; simpl.
  - by rewrite decide_True.
  - destruct (decide (k = k')) as [->|Hne]; simpl.
    + by rewrite decide_True.
    + by rewrite decide_False.
Qed.

Lemma dict_get_set_ne {K V : Type} `{EqDecision K} (k k' : K) (v : V) d :
  k ≠ k' → dict_get k' (dict_set k v d) = dict_get k' d.
Proof.
  intros Hne. induction d as [|[k0 v0] d IH]; simpl.
  - by rewrite decide_False.
  - destruct (decide (k = k0)) as [->|Hk]; simpl.
    + by rewrite !decide_False.
    + destruct (decide (k' = k0)); [done | apply IH].
Qed.

Lemma dict_set_fresh {K V : Type} `{EqDecision K} (k : K) (v : V) d :
  k ∉ d.*1 → dict_set k v d = d ++ [(k, v)].
Proof.
  induction d as [|[k0 v0] d IH]; simpl; [done|].
  intros Hk. apply not_elem_of_cons in Hk as [Hne Hk].
  rewrite decide_False by done. f_equal. by apply IH.
Qed.

Lemma dict_of_items_app_NoDup {K V : Type} `{EqDecision K} (items : list (K * V)) :
  ∀ acc, NoDup (acc ++ items).*1 →
         fold_left (λ d kv, dict_set kv.1 kv.2 d) items acc = acc ++ items.
Proof.
  induction items as [|[k v] items IH]; intros acc Hnd; simpl.
  - by rewrite app_nil_r.
  - rewrite dict_set_fresh.
    + rewrite IH; rewrite <- app_assoc; done.
    + rewrite fmap_app in Hnd. apply NoDup_app in Hnd as (_ & Hdisj & _).
      intros Hin. apply (Hdisj k Hin). simpl. by left.
Qed.

(** [OrderedDict(pairs).items()] gives back pairs whose keys are distinct. *)
Lemma dict_of_items_NoDup {K V : Type} `{EqDecision K} (items : list (K * V)) :
  NoDup items.*1 → dict_of_items items = items.
Proof. intros Hnd. unfold dict_of_items. by rewrite dict_of_items_app_NoDup. Qed.

Lemma dict_of_items_get_None {K V : Type} `{EqDecision K} (k : K)
    (items : list (K * V)) :
  k ∉ items.*1 → dict_get k (dict_of_items items) = None.
Proof.
  unfold dict_of_items. intros Hk.
  assert (Hacc : dict_get k ([] : list (K * V)) = None) by done.
  revert Hacc. generalize ([] : list (K * V)).
  induction items as [|[k0 v0] items IH]; intros acc Hacc; simpl; [done|].
  simpl in Hk. apply not_elem_of_cons in Hk as [Hne Hk].
  apply IH; [done|]. by rewrite dict_get_set_ne.
Qed.

(** ** add_reads_to_clusters *)

Section AddReads.
Variables (ORIENTATION_TAG DISCORDANT_CLUSTER_TAG : string).
Variables (ORIENTATION_5P ORIENTATION_3P : tagval).
Variable iter_order : ∀ A : Type, list A → list A.

Local Abbreviation cluster_trees_init :=
  (cluster_trees_init ORIENTATION_5P ORIENTATION_3P).
Local Abbreviation insert_read := (insert_read ORIENTATION_TAG).
Local Abbreviation set_cluster_tag := (set_cluster_tag DISCORDANT_CLUSTER_TAG).
Local Abbreviation add_reads_to_clusters :=
  (add_reads_to_clusters ORIENTATION_TAG DISCORDANT_CLUSTER_TAG
     ORIENTATION_5P ORIENTATION_3P iter_order).
Local Abbreviation run_loci :=
  (run_loci ORIENTATION_TAG DISCORDANT_CLUSTER_TAG
     ORIENTATION_5P ORIENTATION_3P iter_order).
Local Abbreviation cluster_discordant_reads :=
  (cluster_discordant_reads ORIENTATION_TAG DISCORDANT_CLUSTER_TAG
     ORIENTATION_5P ORIENTATION_3P iter_order).

(** After the cluster tag is set on a read, [r.opt] of that tag gives the
    cluster id; the alignment is untouched; and on a read whose tags have
    distinct names every other tag reads as before. *)
Theorem set_cluster_tag_lookup (cluster_id : Z) (r : AlignedRead) :
  opt (set_cluster_tag cluster_id r) DISCORDANT_CLUSTER_TAG
  = Ok (TInt cluster_id)
  ∧ alignment_of (set_cluster_tag cluster_id r) = alignment_of r
  ∧ (NoDup (tags r).*1 →
     ∀ tag, tag ≠ DISCORDANT_CLUSTER_TAG →
            opt (set_cluster_tag cluster_id r) tag = opt r tag).
Proof.
  unfold opt, ClusterDiscordantReads.set_cluster_tag. simpl.
  split; [by rewrite dict_get_set_eq|]. split; [done|].
  intros Hnd tag Htag.
  rewrite dict_get_set_ne by done. by rewrite dict_of_items_NoDup.
Qed.

Lemma insert_read_only_KeyError trees ir e :
  insert_read trees ir = Raise e → e = KeyError.
Proof.
  destruct ir as [i r]. unfold ClusterDiscordantReads.insert_read, opt.
  destruct (dict_get "XS" (tags r)) as [strand|]; simpl; [|by intros [= <-]].
  destruct (dict_get ORIENTATION_TAG (tags r)) as [orientation|]; simpl;
    [|by intros [= <-]].
  destruct (dict_get (strand, orientation) trees); [done | by intros [= <-]].
Qed.

Lemma insert_read_keeps_keys trees ir trees' key :
  dict_get key trees = None → insert_read trees ir = Ok trees' →
  dict_get key trees' = None.
Proof.
  destruct ir as [i r]. unfold ClusterDiscordantReads.insert_read, opt.
  intros Hkey.
  destruct (dict_get "XS" (tags r)) as [strand|]; simpl; [|done].
  destruct (dict_get ORIENTATION_TAG (tags r)) as [orientation|]; simpl; [|done].
  destruct (dict_get (strand, orientation) trees) eqn:Hb; [|done].
  intros [= <-]. rewrite dict_get_set_ne; [done|].
  intros <-. unfold bucket in *. congruence.
Qed.

(** [add_reads_to_clusters] raises [KeyError], and returns nothing, as
    soon as one of the reads lacks the XS tag or the orientation tag, or
    carries a (strand, orientation) pair that is none of the four keys of
    [cluster_trees]. *)
Theorem add_reads_to_clusters_KeyError (reads : list AlignedRead)
    (next_cluster_id : Z) (r : AlignedRead) (Hr : r ∈ reads)
    (Hbad : dict_get "XS" (tags r) = None
            ∨ dict_get ORIENTATION_TAG (tags r) = None
            ∨ ∃ strand orientation,
                dict_get "XS" (tags r) = Some strand
                ∧ dict_get ORIENTATION_TAG (tags r) = Some orientation
                ∧ (strand, orientation)
                  ∉ [ (TStr "+", ORIENTATION_5P); (TStr "+", ORIENTATION_3P);
                      (TStr "-", ORIENTATION_5P); (TStr "-", ORIENTATION_3P) ]) :
  add_reads_to_clusters reads next_cluster_id = Raise KeyError.
Proof.
  unfold ClusterDiscordantReads.add_reads_to_clusters.
  apply list_elem_of_lookup in Hr as [i Hi].
  assert (Hin : (i, r) ∈ imap pair reads).
  { apply list_elem_of_lookup. exists i. by rewrite list_lookup_imap, Hi. }
  destruct Hbad as [Hxs|[Hor|(strand & orientation & Hxs & Hor & Hkey)]].
  - rewrite (for_each_raises (λ _, True) insert_read KeyError (i, r)); try done.
    + intros ???. apply insert_read_only_KeyError.
    + intros trees _. unfold ClusterDiscordantReads.insert_read, opt.
      by rewrite Hxs.
  - rewrite (for_each_raises (λ _, True) insert_read KeyError (i, r)); try done.
    + intros ???. apply insert_read_only_KeyError.
    + intros trees _. unfold ClusterDiscordantReads.insert_read, opt.
      rewrite Hor. by destruct (dict_get "XS" (tags r)).
  - rewrite (for_each_raises
               (λ trees, dict_get (strand, orientation) trees = None)
               insert_read KeyError (i, r)); try done.
    + intros trees ir trees' Hk. by apply insert_read_keeps_keys.
    + intros ???. apply insert_read_only_KeyError.
    + intros trees Hk. unfold ClusterDiscordantReads.insert_read, opt.
      rewrite Hxs, Hor. simpl. by rewrite Hk.
    + by apply dict_of_items_get_None.
Qed.

(** *** The reads keep their alignment *)

Lemma tag_member_alignment cluster_id st i st' :
  tag_member DISCORDANT_CLUSTER_TAG cluster_id st i = Ok st' →
  alignment_of <$> st'.2 = alignment_of <$> st.2.
Proof.
  destruct st as [qnames reads]. unfold tag_member. simpl.
  destruct (reads !! i) as [r|] eqn:Hi; [|done]. intros [= <-]. simpl.
  rewrite list_fmap_insert. apply list_insert_id.
  by rewrite list_lookup_fmap, Hi.
Qed.

Lemma emit_region_alignment reads0 strand orientation rn st reg st' :
  alignment_of <$> es_reads st = reads0 →
  emit_region DISCORDANT_CLUSTER_TAG iter_order strand orientation rn st reg = Ok st' →
  alignment_of <$> es_reads st' = reads0.
Proof.
  intros Hst. unfold emit_region.
  destruct (for_each _ _ _) as [[qnames reads]|e] eqn:Hloop; simpl; [|done].
  intros [= <-]. simpl.
  eapply (for_each_invariant (λ s, alignment_of <$> s.2 = reads0)) in Hloop;
    [exact Hloop| |done].
  intros s i s' Hs Hstep. by rewrite (tag_member_alignment _ _ _ _ Hstep).
Qed.

Lemma add_reads_to_clusters_alignment reads next clusters next' reads' :
  add_reads_to_clusters reads next = Ok (clusters, next', reads') →
  alignment_of <$> reads' = alignment_of <$> reads.
Proof.
  unfold ClusterDiscordantReads.add_reads_to_clusters.
  destruct (for_each _ _ _) as [trees|e]; simpl; [|done].
  destruct (for_each _ _ _) as [st|e] eqn:Hemit; simpl; [|done].
  intros [= <- <- <-].
  eapply (for_each_invariant
            (λ s, alignment_of <$> es_reads s = alignment_of <$> reads))
    in Hemit; [exact Hemit| |done].
  intros s [[strand orientation] trees'] s'. unfold emit_bucket. simpl.
  apply (for_each_invariant
           (λ s, alignment_of <$> es_reads s = alignment_of <$> reads)).
  intros s1 [rn tree] s1'. unfold emit_tree. simpl.
  apply (for_each_invariant
           (λ s, alignment_of <$> es_reads s = alignment_of <$> reads)).
  intros ???. apply emit_region_alignment.
Qed.

(** When [add_reads_to_clusters] returns, the reads are as many as before
    and in the same order, each with its reference, start, end and query
    name unchanged: tagging touches nothing but the tags. *)
Theorem add_reads_to_clusters_keeps_alignments (reads : list AlignedRead)
    (next_cluster_id : Z) (clusters : list cluster) (next' : Z)
    (reads' : list AlignedRead)
    (Hcall : add_reads_to_clusters reads next_cluster_id
             = Ok (clusters, next', reads')) :
  alignment_of <$> reads' = alignment_of <$> reads
  ∧ length reads' = length reads.
Proof.
  pose proof (add_reads_to_clusters_alignment _ _ _ _ _ Hcall) as Heq.
  split; [done|].
  apply (f_equal length) in Heq. by rewrite !length_fmap in Heq.
Qed.

Lemma run_loci_records bamfh loci :
  ∀ next acc,
    run_status acc = None →
    let r := (run_loci bamfh loci next acc).1 in
    run_status r = None →
    alignment_of <$> run_records r
    = (alignment_of <$> run_records acc) ++ (alignment_of <$> concat loci).
Proof.
  induction loci as [|locus loci IH]; intros next acc Hacc; simpl.
  - intros _. by rewrite app_nil_r.
  - destruct (add_reads_to_clusters locus next) as [[[cs next'] reads']|e] eqn:Hadd;
      simpl; [|done].
    destruct (print_clusters bamfh cs (run_rows acc)) as [rows [e|]]; simpl; [done|].
    intros Hr. rewrite IH; [|done|done]. simpl.
    rewrite !fmap_app, (add_reads_to_clusters_alignment _ _ _ _ _ Hadd).
    by rewrite <- app_assoc.
Qed.

(** Were [bamfh] bound at module level to an alignment file, a run of
    [cluster_discordant_reads] that ends without an exception writes the
    records of that file, all of them and in their order, with their
    alignments unchanged. *)
Theorem cluster_discordant_reads_writes_every_record
    (globals : gmap string pyval) (bamfh discordant_bamfh concordant_bamfh : Samfile)
    (Hbound : globals !! "bamfh" = Some (VSamfile bamfh))
    (Hdone : run_status (cluster_discordant_reads globals discordant_bamfh
                           concordant_bamfh) = None) :
  alignment_of <$> run_records (cluster_discordant_reads globals
                                  discordant_bamfh concordant_bamfh)
  = alignment_of <$> sf_reads bamfh.
Proof.
  revert Hdone. unfold ClusterDiscordantReads.cluster_discordant_reads.
  rewrite Hbound.
  pose proof (run_loci_records bamfh (yielded (cluster_loci (sf_reads bamfh)))
                0 (Run [] [] None) eq_refl) as Hrec.
  destruct (run_loci _ _ _ _) as [r n]. simpl in Hrec.
  destruct (run_status r) as [e|] eqn:Hst; [by rewrite Hst|]. simpl.
  intros Hfinish. rewrite (Hrec eq_refl). f_equal.
  destruct (sf_reads bamfh) as [|r0 rest]; [done|].
  apply cluster_loci_concat.
Qed.

End AddReads.

Lemma set_cluster_tag_lookup_witness :
  let r := mkRead 0 0 10 "a" [("XS", TStr "+"); ("XO", TInt 1)] in
  opt (set_cluster_tag "XC" 7 r) "XS" = opt r "XS".
Proof.
  intros r.
  apply (proj2 (proj2 (set_cluster_tag_lookup "XC" 7 r))); [|done].
  simpl. repeat constructor; set_solver.
Defined.

Lemma add_reads_to_clusters_KeyError_witness :
  let r1 := mkRead 0 0 10 "a" [("XS", TStr "+"); ("XO", TInt 1)] in
  let r2 := mkRead 0 5 15 "b" [("XS", TStr "."); ("XO", TInt 1)] in
  add_reads_to_clusters "XO" "XC" (TInt 1) (TInt 2) (λ _ l, l) [r1; r2] 0
  = Raise KeyError.
Proof.
  intros r1 r2.
  apply (add_reads_to_clusters_KeyError "XO" "XC" (TInt 1) (TInt 2) (λ _ l, l)
           [r1; r2] 0 r2).
  - right. left.
  - right. right. exists (TStr "."), (TInt 1).
    split; [reflexivity|]. split; [reflexivity|].
    intros Hin. repeat (apply elem_of_cons in Hin as [Heq|Hin]; [discriminate Heq|]).
    by apply elem_of_nil in Hin.
Defined.

Lemma add_reads_to_clusters_keeps_alignments_witness :
  let r1 := mkRead 0 0 10 "a" [("XS", TStr "+"); ("XO", TInt 1)] in
  let r2 := mkRead 0 50 60 "b" [("XS", TStr "-"); ("XO", TInt 2)] in
  ∃ clusters next' reads',
    add_reads_to_clusters "XO" "XC" (TInt 1) (TInt 2) (λ _ l, l) [r1; r2] 0
    = Ok (clusters, next', reads')
    ∧ alignment_of <$> reads' = [(0, 0, 10, "a"); (0, 50, 60, "b")].
Proof.
  intros r1 r2.
  destruct (add_reads_to_clusters "XO" "XC" (TInt 1) (TInt 2) (λ _ l, l)
              [r1; r2] 0) as [[[clusters next'] reads']|e] eqn:Hcall;
    [|by vm_compute in Hcall].
  exists clusters, next', reads'. split; [done|].
  exact (proj1 (add_reads_to_clusters_keeps_alignments "XO" "XC" (TInt 1)
                  (TInt 2) (λ _ l, l) [r1; r2] 0 clusters next' reads' Hcall)).
Defined.

Lemma cluster_discordant_reads_writes_every_record_witness :
  let r1 := mkRead 0 0 10 "a" [("XS", TStr "+"); ("XO", TInt 1)] in
  let r2 := mkRead 0 50 60 "b" [("XS", TStr "-"); ("XO", TInt 2)] in
  let fh := mkSamfile ["chr1"] [r1; r2] in
  alignment_of <$>
    run_records (cluster_discordant_reads "XO" "XC" (TInt 1) (TInt 2) (λ _ l, l)
                   (<["bamfh" := VSamfile fh]> module_globals) fh fh)
  = [(0, 0, 10, "a"); (0, 50, 60, "b")].
Proof.
  intros r1 r2 fh.
  apply (cluster_discordant_reads_writes_every_record "XO" "XC" (TInt 1)
           (TInt 2) (λ _ l, l) (<["bamfh" := VSamfile fh]> module_globals)
           fh fh fh).
  - apply lookup_insert_eq.
  - vm_compute. reflexivity.
Defined.

End ClusterDiscordantReadsMore.

(** * Further properties of filter_chimeras_v2.py *)

Module FilterChimerasMore.
Import FilterChimeras FilterChimerasSpec.

(** ** read_false_pos_file *)

Lemma add_false_pos_inv (fp : gset false_pos_key_t) (line : string) fp' :
  add_false_pos fp line = Ok fp' →
  ∃ k, fp' = fp ∪ {[ k ]} ∧ ∀ fp0, add_false_pos fp0 line = Ok (fp0 ∪ {[ k ]}).
Proof.
  unfold add_false_pos.
  destruct (split _ _) as [|f1 [|f2 [|f3 [|f4 [|f5 fs]]]]]; try done.
  destruct (py_int f2) as [e5|]; simpl; [|done].
  destruct (py_int f4) as [s3|]; simpl; [|done].
  intros [= <-]. by eexists.
Qed.

Lemma add_false_pos_only_ValueError (fp : gset false_pos_key_t) (line : string) e :
  add_false_pos fp line = Raise e →
  e = ValueError ∧ ∀ fp0, add_false_pos fp0 line = Raise ValueError.
Proof.
  unfold add_false_pos, py_int.
  destruct (split _ _) as [|f1 [|f2 [|f3 [|f4 [|f5 fs]]]]];
    try (by intros [= <-]).
  destruct (match strip f2 with | EmptyString => _ | String _ _ => _ end);
    simpl; [|by intros [= <-]].
  destruct (match strip f4 with | EmptyString => _ | String _ _ => _ end);
    simpl; [done | by intros [= <-]].
Qed.

Lemma read_false_pos_file_from (lines : list string) :
  ∀ fp fp', for_each add_false_pos lines fp = Ok fp' →
    ∀ k, k ∈ fp' ↔ k ∈ fp ∨ ∃ line, line ∈ lines ∧ add_false_pos ∅ line = Ok {[ k ]}.
Proof.
  induction lines as [|line lines IH]; intros fp fp'; simpl.
  - intros [= <-] k. split; [auto|]. intros [?|(? & []%elem_of_nil & _)]. done.
  - destruct (add_false_pos fp line) as [fp1|e] eqn:Hline; simpl; [|done].
    apply add_false_pos_inv in Hline as (k0 & -> & Hany).
    intros Hrest k. rewrite (IH _ _ Hrest), elem_of_union, elem_of_singleton.
    specialize (Hany ∅). rewrite (left_id_L ∅ (∪)) in Hany. split.
    + intros [[?| ->]|(l & Hl & Hk)]; [by left| |].
      * right. exists line. split; [by left|done].
      * right. exists l. split; [by right|done].
    + intros [?|(l & [->|Hl]%elem_of_cons & Hk)]; [by left; left| |].
      * rewrite Hany in Hk.
        assert (Heq : ({[ k0 ]} : gset false_pos_key_t) = {[ k ]}) by congruence.
        left. right. set_solver.
      * right. eauto.
Qed.

(** When [read_false_pos_file] returns, its set holds exactly the tuples
    of the lines of the file: a tuple is in the set if and only if some
    line of the file reads as that tuple.  Repeated lines and the order of
    the lines make no difference. *)
Theorem read_false_pos_file_members (lines : list string)
    (false_pos_chimeras : gset false_pos_key_t)
    (Hread : read_false_pos_file lines = Ok false_pos_chimeras) :
  ∀ k, k ∈ false_pos_chimeras
       ↔ ∃ line, line ∈ lines ∧ add_false_pos ∅ line = Ok {[ k ]}.
Proof.
  intros k. rewrite (read_false_pos_file_from _ _ _ Hread k).
  rewrite elem_of_empty. naive_solver.
Qed.

(** One line that does not split into four tab-separated fields with
    integers in the second and fourth makes [read_false_pos_file] raise
    [ValueError]: no partial blacklist is returned. *)
Theorem read_false_pos_file_ValueError (lines : list string) (line : string)
    (e : exn) (Hline : line ∈ lines)
    (Hbad : add_false_pos ∅ line = Raise e) :
  read_false_pos_file lines = Raise ValueError.
Proof.
  unfold read_false_pos_file.
  apply (for_each_raises (λ _, True) add_false_pos ValueError line); try done.
  - intros fp l e' He'. by destruct (add_false_pos_only_ValueError _ _ _ He').
  - intros fp _. by destruct (add_false_pos_only_ValueError _ _ _ Hbad) as [_ ->].
Qed.

Lemma read_false_pos_file_members_witness :
  ("TX1", 50, "TX2", 7)
  ∈ ({[ ("TX1", 50, "TX2", 7); ("A", 1, "B", -2) ]} : gset false_pos_key_t)
  ↔ ∃ line,
      line ∈ [ "TX1" +:+ String "009" ("50" +:+ String "009"
                 ("TX2" +:+ String "009" ("7" +:+ String "010" "")));
               "A" +:+ String "009" ("1" +:+ String "009"
                 ("B" +:+ String "009" "-2")) ]
      ∧ add_false_pos ∅ line = Ok {[ ("TX1", 50, "TX2", 7) ]}.
Proof.
  apply read_false_pos_file_members. vm_compute. reflexivity.
Defined.

Lemma read_false_pos_file_ValueError_witness :
  read_false_pos_file
    [ "A" +:+ String "009" ("1" +:+ String "009" ("B" +:+ String "009" "2"));
      "A" +:+ String "009" ("x" +:+ String "009" ("B" +:+ String "009" "2")) ]
  = Raise ValueError.
Proof.
  apply (read_false_pos_file_ValueError _
           ("A" +:+ String "009" ("x" +:+ String "009" ("B" +:+ String "009" "2")))
           ValueError).
  - right. left.
  - vm_compute. reflexivity.
Defined.

(** ** The chain of filters *)

Section Chain.
Context {coord : Type} `{Countable coord}.
Variable tx_cluster_map : gmap string Z.
Variable gene_to_genome_pos : string → Z → result coord.
Variable GENE_REF_PREFIX : string.

Local Abbreviation check_chimera := (check_chimera GENE_REF_PREFIX).
Local Abbreviation filter_chimeric_isoform_fraction :=
  (filter_chimeric_isoform_fraction GENE_REF_PREFIX).
Local Abbreviation filter_chimeras :=
  (filter_chimeras tx_cluster_map gene_to_genome_pos GENE_REF_PREFIX).

Lemma check_chimera_chain (par : params) (bamfh : Samfile)
    (false_pos_pairs : gset false_pos_key_t) (c : Chimera) :
  check_chimera par bamfh false_pos_pairs c
  = if filter_weighted_frags c (par_weighted_unique_frags par)
       && filter_inner_dist c (par_max_isize par)
       && filter_false_pos c false_pos_pairs
    then filter_chimeric_isoform_fraction c (par_isoform_fraction par)
           (par_median_isize par) bamfh
    else Ok false.
Proof.
  unfold FilterChimeras.check_chimera.
  destruct (filter_weighted_frags _ _); [|done].
  destruct (filter_inner_dist _ _); [|done].
  destruct (filter_false_pos _ _); [|done]. simpl.
  by destruct (FilterChimeras.filter_chimeric_isoform_fraction _ _ _ _ _).
Qed.

(** A candidate that fails the weighted-fragments filter, the
    inner-distance filter or the blacklist test is turned down without the
    alignment file being looked at: whatever that file holds, and even if
    the candidate's transcript is not in it, no exception is raised. *)
Theorem check_chimera_short_circuit (par : params)
    (false_pos_pairs : gset false_pos_key_t) (c : Chimera)
    (Hfail : filter_weighted_frags c (par_weighted_unique_frags par) = false
             ∨ filter_inner_dist c (par_max_isize par) = false
             ∨ filter_false_pos c false_pos_pairs = false) :
  ∀ bamfh, check_chimera par bamfh false_pos_pairs c = Ok false.
Proof.
  intros bamfh. rewrite check_chimera_chain.
  destruct Hfail as [-> |[-> | ->]]; [done| |].
  - by rewrite andb_false_r.
  - by rewrite andb_false_r.
Qed.

Lemma write_if_good_kept (par : params) (bamfh : Samfile)
    (false_pos_pairs : gset false_pos_key_t) (input : list Chimera) :
  ∀ written tmp,
    for_each (write_if_good GENE_REF_PREFIX par bamfh false_pos_pairs)
      input written = Ok tmp →
    ∃ kept, tmp = written ++ kept ∧ kept `sublist_of` input
            ∧ ∀ c, c ∈ kept → check_chimera par bamfh false_pos_pairs c = Ok true.
Proof.
  induction input as [|c0 input IH]; intros written tmp; simpl.
  - intros [= <-]. exists []. rewrite app_nil_r. split; [done|].
    split; [done|]. by intros c ?%elem_of_nil.
  - destruct (write_if_good GENE_REF_PREFIX par bamfh false_pos_pairs written c0)
      as [written'|e] eqn:Hstep; simpl; [|done].
    unfold write_if_good in Hstep.
    destruct (FilterChimeras.check_chimera GENE_REF_PREFIX par bamfh
                false_pos_pairs c0) as [good|e] eqn:Hcheck; simpl in Hstep; [|done].
    injection Hstep as <-.
    intros (kept & -> & Hsub & Hgood)%IH. destruct good.
    + exists (c0 :: kept). rewrite <- app_assoc. split; [done|].
      split; [by apply sublist_skip|].
      intros c [->|Hc]%elem_of_cons; [done | by apply Hgood].
    + exists kept. split; [done|]. split; [by apply sublist_cons | done].
Qed.

(** What [filter_chimeras] puts out is taken from its input, in input
    order and with nothing added, and every candidate it puts out passes
    the weighted-fragments filter, the inner-distance filter, the blacklist
    test and the isoform-fraction filter. *)
Theorem filter_chimeras_output_passes (fs : gmap string (list string))
    (input : list Chimera) (bamfh : Samfile) (par : params)
    (false_pos_file : option string) (false_pos_pairs : gset false_pos_key_t)
    (output : list Chimera)
    (Hload : load_false_pos_pairs fs false_pos_file = Ok false_pos_pairs)
    (Hrun : filter_chimeras fs input bamfh par false_pos_file = Ok output) :
  output `sublist_of` input
  ∧ ∀ c, c ∈ output →
         filter_weighted_frags c (par_weighted_unique_frags par) = true
         ∧ filter_inner_dist c (par_max_isize par) = true
         ∧ filter_false_pos c false_pos_pairs = true
         ∧ filter_chimeric_isoform_fraction c (par_isoform_fraction par)
             (par_median_isize par) bamfh = Ok true.
Proof.
  revert Hrun. unfold FilterChimeras.filter_chimeras. rewrite Hload. simpl.
  destruct (for_each _ input []) as [tmp|e] eqn:Hloop; simpl; [|done].
  apply write_if_good_kept in Hloop as (kept & -> & Hsub & Hgood). simpl.
  unfold select_isoforms.
  destruct (get_highest_coverage_isoforms _ _ kept) as [names|e]; simpl; [|done].
  intros [= <-]. split.
  - etrans; [apply sublist_filter | done].
  - intros c [_ Hc]%list_elem_of_filter. specialize (Hgood c Hc).
    rewrite check_chimera_chain in Hgood.
    destruct (filter_weighted_frags _ _); [|done].
    destruct (filter_inner_dist _ _); [|done].
    by destruct (filter_false_pos _ _).
Qed.

(** ** The isoform-fraction filter at its edges *)

(** [filter_chimeric_isoform_fraction] raises [ValueError] when the 5'
    transcript, under its reference prefix, is not among the references of
    the alignment file. *)
Theorem isoform_fraction_unknown_reference (c : Chimera) (frac : Qc)
    (median_isize : Z) (bamfh : Samfile)
    (Hmissing : GENE_REF_PREFIX +:+ tx_name (partner5p c) ∉ references bamfh) :
  filter_chimeric_isoform_fraction c frac median_isize bamfh = Raise ValueError.
Proof.
  unfold FilterChimeras.filter_chimeric_isoform_fraction.
  assert (Hidx : ∀ l, GENE_REF_PREFIX +:+ tx_name (partner5p c) ∉ l →
                      list_index (GENE_REF_PREFIX +:+ tx_name (partner5p c)) l
                      = Raise ValueError).
  { induction l as [|y l IH]; simpl; [done|].
    intros [Hne Hl]%not_elem_of_cons. rewrite decide_False by done.
    by rewrite (IH Hl). }
  by rewrite (Hidx _ Hmissing).
Qed.

(** When the reference is found and no record is fetched around the
    breakpoint, no wild-type fragment is counted and the divisor is 1: the
    candidate passes exactly when its fragment count reaches the
    fraction. *)
Theorem isoform_fraction_empty_window (c : Chimera) (frac : Qc)
    (median_isize : Z) (bamfh : Samfile) (tid : nat) (rlen : Z)
    (Hindex : list_index (GENE_REF_PREFIX +:+ tx_name (partner5p c))
                (references bamfh) = Ok tid)
    (Hlength : lengths bamfh !! tid = Some rlen)
    (Hfetch : fetch bamfh (GENE_REF_PREFIX +:+ tx_name (partner5p c))
                (Z.max 0 (p_end (partner5p c) - median_isize))
                (Z.min rlen (p_end (partner5p c) + median_isize)) = []) :
  filter_chimeric_isoform_fraction c frac median_isize bamfh
  = Ok (bool_decide (frac ≤ Qc_of_Z (num_frags c))%Qc).
Proof.
  unfold FilterChimeras.filter_chimeric_isoform_fraction.
  rewrite Hindex. simpl. unfold list_item. rewrite Hlength. simpl.
  rewrite Hfetch. simpl. rewrite map_to_list_empty. simpl.
  change (set_size _) with (size (∅ : gset string)). rewrite size_empty.
  change (Z.of_nat 0 `max` 1) with 1.
  f_equal. apply bool_decide_ext.
  by rewrite Z2Qc_inj_1, (right_id 1%Qc Qcdiv).
Qed.

End Chain.

Lemma check_chimera_short_circuit_witness :
  let c := mkChimera "C1" (mkPartner "TX1" 0 50 10) (mkPartner "TX2" 7 300 10)
             (Q2Qc (29 # 10)) 1 5 (Qc_of_Z 4) in
  let par := mkParams (Qc_of_Z 3) 200 1000 (Q2Qc (1 # 10)) in
  check_chimera "gene_" par (mkSamfile [] [] (λ _ _ _, [])) ∅ c = Ok false.
Proof.
  intros c par.
  apply (check_chimera_short_circuit "gene_" par ∅ c).
  left. vm_compute. reflexivity.
Defined.

Lemma filter_chimeras_output_passes_witness :
  let c1 := mkChimera "C1" (mkPartner "TX1" 0 50 10) (mkPartner "TX2" 7 300 10)
              (Qc_of_Z 3) 4 5 (Qc_of_Z 4) in
  let c2 := mkChimera "C2" (mkPartner "TX1" 0 50 10) (mkPartner "TX2" 7 300 10)
              (Qc_of_Z 2) 4 9 (Qc_of_Z 4) in
  let par := mkParams (Qc_of_Z 3) 200 1000 (Q2Qc (1 # 10)) in
  let bamfh := mkSamfile ["gene_TX1"] [1000] (λ _ _ _, []) in
  let tx_cluster_map : gmap string Z := {[ "TX1" := 1; "TX2" := 2 ]} in
  [c1] `sublist_of` [c1; c2]
  ∧ ∀ c, c ∈ [c1] →
         filter_weighted_frags c (Qc_of_Z 3) = true
         ∧ filter_inner_dist c 1000 = true
         ∧ filter_false_pos c ∅ = true
         ∧ filter_chimeric_isoform_fraction "gene_" c (Q2Qc (1 # 10)) 200 bamfh
           = Ok true.
Proof.
  intros c1 c2 par bamfh tx_cluster_map.
  apply (filter_chimeras_output_passes tx_cluster_map (λ _ p, Ok p) "gene_"
           ∅ [c1; c2] bamfh par None ∅ [c1]).
  - reflexivity.
  - vm_compute. reflexivity.
Defined.

Lemma isoform_fraction_unknown_reference_witness :
  let c := mkChimera "C1" (mkPartner "TX1" 0 50 10) (mkPartner "TX2" 7 300 10)
             (Qc_of_Z 3) 4 5 (Qc_of_Z 4) in
  filter_chimeric_isoform_fraction "gene_" c (Q2Qc (1 # 10)) 200
    (mkSamfile ["gene_TX2"] [1000] (λ _ _ _, [])) = Raise ValueError.
Proof.
  intros c. apply isoform_fraction_unknown_reference.
  intros Hin. apply list_elem_of_singleton in Hin. discriminate Hin.
Defined.

Lemma isoform_fraction_empty_window_witness :
  let c := mkChimera "C1" (mkPartner "TX1" 0 50 10) (mkPartner "TX2" 7 300 10)
             (Qc_of_Z 3) 4 5 (Qc_of_Z 4) in
  filter_chimeric_isoform_fraction "gene_" c (Q2Qc (1 # 10)) 200
    (mkSamfile ["gene_TX1"] [1000] (λ _ _ _, []))
  = Ok (bool_decide (Q2Qc (1 # 10) ≤ Qc_of_Z 4)%Qc).
Proof.
  intros c.
  apply (isoform_fraction_empty_window "gene_" c (Q2Qc (1 # 10)) 200
           (mkSamfile ["gene_TX1"] [1000] (λ _ _ _, [])) 0%nat 1000);
    reflexivity.
Defined.

(** ** Selection among isoforms *)

Lemma filter_all {A : Type} (P : A → Prop) `{∀ x, Decision (P x)} (l : list A) :
  (∀ x, x ∈ l → P x) → filter P l = l.
Proof.
  induction l as [|x l IH]; intros Hall; [done|].
  rewrite filter_cons_True by (apply Hall; by left).
  f_equal. apply IH. intros y Hy. apply Hall. by right.
Qed.

(** A non-empty list of candidates has one whose ranking tuple none of the
    others exceeds. *)
Lemma greatest_stats (l : list Chimera) :
  l ≠ [] →
  ∃ c, c ∈ l ∧ ∀ c', c' ∈ l → stats_le (chimera_stats c') (chimera_stats c).
Proof.
  induction l as [|x l IH]; [done|]. intros _.
  destruct l as [|y l].
  - exists x. split; [by left|]. intros c' ->%list_elem_of_singleton.
    apply stats_le_refl.
  - destruct IH as (c & Hc & Hmax); [done|].
    destruct (stats_le_total (chimera_stats x) (chimera_stats c)) as [Hle|Hle].
    + exists c. split; [by right|].
      intros c' [->|Hc']%elem_of_cons; [done | by apply Hmax].
    + exists x. split; [by left|].
      intros c' [->|Hc']%elem_of_cons; [apply stats_le_refl|].
      eapply stats_le_trans; [by apply Hmax | done].
Qed.

Section Isoforms.
Context {coord : Type} `{Countable coord}.
Variable tx_cluster_map : gmap string Z.
Variable gene_to_genome_pos : string → Z → result coord.

Local Abbreviation group_key := (group_key tx_cluster_map gene_to_genome_pos).
Local Abbreviation add_chimera := (add_chimera tx_cluster_map gene_to_genome_pos).
Local Abbreviation get_highest_coverage_isoforms :=
  (get_highest_coverage_isoforms tx_cluster_map gene_to_genome_pos).
Local Abbreviation select_isoforms :=
  (select_isoforms tx_cluster_map gene_to_genome_pos).

Lemma select_isoforms_Ok (input : list Chimera) :
  Forall (λ c, ∃ g, group_key c = Ok g) input →
  ∃ kept : gset string,
    select_isoforms input = Ok (filter (λ c, name c ∈ kept) input)
          ∧ ∀ n, n ∈ kept
                 ↔ ∃ c g, c ∈ input ∧ name c = n ∧ group_key c = Ok g
                          ∧ ∀ c', c' ∈ input → group_key c' = Ok g →
                                  stats_le (chimera_stats c') (chimera_stats c).
Proof.
  intros Hkeys.
  destruct (get_highest_coverage_isoforms_spec _ _ input Hkeys)
    as (kept & Hrun & Hkept).
  exists kept. split; [|done].
  unfold FilterChimeras.select_isoforms. by rewrite Hrun.
Qed.

(** No group is lost: when every candidate has a group key, each candidate
    of the input has, among the candidates retained, one of its own group
    whose ranking tuple is at least its own. *)
Theorem select_isoforms_keeps_each_group (input : list Chimera)
    (Hkeys : Forall (λ c, ∃ g, group_key c = Ok g) input) :
  ∃ output,
    select_isoforms input = Ok output
    ∧ ∀ c, c ∈ input →
           ∃ c', c' ∈ output ∧ group_key c' = group_key c
                 ∧ stats_le (chimera_stats c) (chimera_stats c').
Proof.
  destruct (select_isoforms_Ok input Hkeys) as (kept & Hrun & Hkept).
  eexists. split; [exact Hrun|]. intros c Hc.
  rewrite Forall_forall in Hkeys. destruct (Hkeys c Hc) as [g Hg].
  destruct (greatest_stats (filter (λ x, group_key x = Ok g) input))
    as (c' & [Hg' Hc']%list_elem_of_filter & Hmax).
  { intros Hnil. assert (c ∈ filter (λ x, group_key x = Ok g) input) as Hin
      by by apply list_elem_of_filter.
    rewrite Hnil in Hin. by apply elem_of_nil in Hin. }
  exists c'. split; [|split].
  - apply list_elem_of_filter. split; [|done]. apply Hkept.
    exists c', g. repeat split; [done..|].
    intros c'' Hc'' Hg''. apply Hmax. by apply list_elem_of_filter.
  - by rewrite Hg, Hg'.
  - apply Hmax. by apply list_elem_of_filter.
Qed.

(** Selecting again changes nothing: applied to its own output, the
    selection returns that output. *)
Theorem select_isoforms_idempotent (input output : list Chimera)
    (Hkeys : Forall (λ c, ∃ g, group_key c = Ok g) input)
    (Hrun : select_isoforms input = Ok output) :
  select_isoforms output = Ok output.
Proof.
  destruct (select_isoforms_Ok input Hkeys) as (kept & Hrun' & Hkept).
  rewrite Hrun in Hrun'. injection Hrun' as ->.
  set (output := filter (λ c, name c ∈ kept) input).
  assert (Hsub : ∀ c, c ∈ output → c ∈ input).
  { intros c Hc. apply list_elem_of_filter in Hc. tauto. }
  assert (Hkeys' : Forall (λ c, ∃ g, group_key c = Ok g) output).
  { rewrite Forall_forall in Hkeys. apply Forall_forall. auto. }
  destruct (select_isoforms_Ok output Hkeys') as (kept' & -> & Hkept').
  f_equal. apply filter_all. intros c Hc.
  pose proof Hc as [Hname _]%list_elem_of_filter.
  apply Hkept in Hname as (c0 & g & Hc0 & Hn0 & Hg0 & Hmax0).
  apply Hkept'. exists c0, g. split.
  - apply list_elem_of_filter. split; [|done]. rewrite Hn0.
    apply list_elem_of_filter in Hc. tauto.
  - repeat split; [done..|]. intros c' Hc' Hg'. apply Hmax0; auto.
Qed.

Lemma add_chimera_Raise (d : gmap group_t (list stats_info)) c e :
  group_key c = Raise e → add_chimera d c = Raise e.
Proof. intros Hg. unfold FilterChimeras.add_chimera. by rewrite Hg. Qed.

(** [get_highest_coverage_isoforms] raises [KeyError] at the first
    candidate one of whose transcripts is missing from the
    transcript-to-cluster map, the candidates before it having their
    keys. *)
Theorem get_highest_coverage_isoforms_KeyError
    (before after : list Chimera) (c : Chimera)
    (Hbefore : Forall (λ c, ∃ g, group_key c = Ok g) before)
    (Hmissing : tx_cluster_map !! tx_name (partner5p c) = None
                ∨ tx_cluster_map !! tx_name (partner3p c) = None) :
  get_highest_coverage_isoforms (before ++ c :: after) = Raise KeyError.
Proof.
  unfold FilterChimeras.get_highest_coverage_isoforms.
  rewrite for_each_app.
  destruct (add_chimeras_spec _ _ before ∅ Hbefore) as (d & -> & _). simpl.
  assert (Hkey : group_key c = Raise KeyError).
  { unfold FilterChimeras.group_key, dict_item.
    destruct Hmissing as [-> | ->]; [done|].
    by destruct (tx_cluster_map !! tx_name (partner5p c)). }
  by rewrite (add_chimera_Raise _ _ _ Hkey).
Qed.

End Isoforms.

Lemma select_isoforms_keeps_each_group_witness :
  let tx_cluster_map : gmap string Z := {[ "TX1" := 1; "TX2" := 2 ]} in
  let mk nm span := mkChimera nm (mkPartner "TX1" 0 50 10)
                      (mkPartner "TX2" 7 300 10) (Qc_of_Z 3) 4 span (Qc_of_Z 4) in
  ∃ output,
    select_isoforms tx_cluster_map (λ _ p, Ok p) [mk "C1" 3; mk "C2" 5]
    = Ok output
    ∧ ∀ c, c ∈ [mk "C1" 3; mk "C2" 5] →
           ∃ c', c' ∈ output
                 ∧ group_key tx_cluster_map (λ _ p, Ok p) c'
                   = group_key tx_cluster_map (λ _ p, Ok p) c
                 ∧ stats_le (chimera_stats c) (chimera_stats c').
Proof.
  intros tx_cluster_map mk.
  apply (select_isoforms_keeps_each_group tx_cluster_map (λ _ p, Ok p)).
  repeat (apply Forall_cons; split; [by eexists|]). constructor.
Defined.

Lemma select_isoforms_idempotent_witness :
  let tx_cluster_map : gmap string Z := {[ "TX1" := 1; "TX2" := 2 ]} in
  let mk nm span := mkChimera nm (mkPartner "TX1" 0 50 10)
                      (mkPartner "TX2" 7 300 10) (Qc_of_Z 3) 4 span (Qc_of_Z 4) in
  select_isoforms tx_cluster_map (λ _ p, Ok p) [mk "C2" 5] = Ok [mk "C2" 5].
Proof.
  intros tx_cluster_map mk.
  apply (select_isoforms_idempotent tx_cluster_map (λ _ p, Ok p)
           [mk "C1" 3; mk "C2" 5]).
  - repeat (apply Forall_cons; split; [by eexists|]). constructor.
  - vm_compute. reflexivity.
Defined.

Lemma get_highest_coverage_isoforms_KeyError_witness :
  let tx_cluster_map : gmap string Z := {[ "TX1" := 1; "TX2" := 2 ]} in
  let c1 := mkChimera "C1" (mkPartner "TX1" 0 50 10) (mkPartner "TX2" 7 300 10)
              (Qc_of_Z 3) 4 5 (Qc_of_Z 4) in
  let c2 := mkChimera "C2" (mkPartner "TX1" 0 50 10) (mkPartner "TX9" 7 300 10)
              (Qc_of_Z 3) 4 5 (Qc_of_Z 4) in
  get_highest_coverage_isoforms tx_cluster_map (λ _ p, Ok p) ([c1] ++ c2 :: [])
  = Raise KeyError.
Proof.
  intros tx_cluster_map c1 c2.
  apply (get_highest_coverage_isoforms_KeyError tx_cluster_map (λ _ p, Ok p)).
  - apply Forall_cons. split; [by eexists | constructor].
  - right. reflexivity.
Defined.

(** ** Wild-type fragments: the source against the wording *)

Lemma Qc_of_Z_pos (a : Z) : 0 < a → (0 < Qc_of_Z a)%Qc.
Proof. intros Ha. rewrite <- Z2Qc_inj_0. exact (proj1 (Z2Qc_inj_lt 0 a) Ha). Qed.

Lemma Qc_of_Z_nonzero (a : Z) : 0 < a → Qc_of_Z a ≠ 0%Qc.
Proof.
  intros Ha Heq. apply Qc_of_Z_pos in Ha. rewrite Heq in Ha.
  by apply Qclt_irrefl in Ha.
Qed.

(** A larger divisor gives a smaller ratio. *)
Lemma Qc_div_antitone (n a b : Z) :
  0 ≤ n → 0 < a → a ≤ b →
  (Qc_of_Z n / Qc_of_Z b ≤ Qc_of_Z n / Qc_of_Z a)%Qc.
Proof.
  intros Hn Ha Hab. unfold Qcdiv.
  apply Qcmult_le_mono_nonneg_l.
  { rewrite <- Z2Qc_inj_0. exact (proj1 (Z2Qc_inj_le 0 n) Hn). }
  assert (Hb : 0 < b) by lia.
  pose proof (Qc_of_Z_nonzero a Ha) as Ha0.
  pose proof (Qc_of_Z_nonzero b Hb) as Hb0.
  apply (Qcmult_le_mono_pos_r _ _ (Qc_of_Z (a * b))).
  { apply Qc_of_Z_pos. lia. }
  rewrite Z2Qc_inj_mul.
  replace (/ Qc_of_Z b * (Qc_of_Z a * Qc_of_Z b))%Qc with (Qc_of_Z a)
    by (field; done).
  replace (/ Qc_of_Z a * (Qc_of_Z a * Qc_of_Z b))%Qc with (Qc_of_Z b)
    by (field; done).
  exact (proj1 (Z2Qc_inj_le a b) Hab).
Qed.

Lemma foldr_min_le (x0 : Z) (l : list Z) (x : Z) :
  x ∈ x0 :: l → foldr Z.min x0 l ≤ x.
Proof.
  induction l as [|y l IH]; simpl.
  - intros Hx. apply list_elem_of_singleton in Hx. lia.
  - intros Hx. apply elem_of_cons in Hx as [Hx|Hx].
    + assert (foldr Z.min x0 l ≤ x) by (apply IH; subst; by left). lia.
    + apply elem_of_cons in Hx as [Hx|Hx]; [lia|].
      assert (foldr Z.min x0 l ≤ x) by (apply IH; by right). lia.
Qed.

Lemma foldr_max_ge (x0 : Z) (l : list Z) (x : Z) :
  x ∈ x0 :: l → x ≤ foldr Z.max x0 l.
Proof.
  induction l as [|y l IH]; simpl.
  - intros Hx. apply list_elem_of_singleton in Hx. lia.
  - intros Hx. apply elem_of_cons in Hx as [Hx|Hx].
    + assert (x ≤ foldr Z.max x0 l) by (apply IH; subst; by left). lia.
    + apply elem_of_cons in Hx as [Hx|Hx]; [lia|].
      assert (x ≤ foldr Z.max x0 l) by (apply IH; by right). lia.
Qed.

(** Two records of one fragment, one starting before the breakpoint and
    one ending after it, make the fragment wild-type by the wording. *)
Lemma spec_straddles_intro (bp : Z) (rs : list AlignedRead) (q : string)
    (r1 r2 : AlignedRead) :
  r1 ∈ rs → r2 ∈ rs → qname r1 = q → qname r2 = q →
  pos r1 < bp → bp < aend r2 → spec_straddles bp rs q = true.
Proof.
  intros H1 H2 Hq1 Hq2 Hlo Hhi. unfold spec_straddles.
  assert (Hin1 : r1 ∈ filter (λ r, qname r = q) rs) by by apply list_elem_of_filter.
  assert (Hin2 : r2 ∈ filter (λ r, qname r = q) rs) by by apply list_elem_of_filter.
  destruct (filter (λ r, qname r = q) rs) as [|r rest];
    [by apply elem_of_nil in Hin1|].
  apply bool_decide_eq_true_2.
  assert (foldr Z.min (pos r) (pos <$> rest) ≤ pos r1).
  { apply foldr_min_le. change (pos r1 ∈ pos <$> r :: rest).
    by apply list_elem_of_fmap_2. }
  assert (aend r2 ≤ foldr Z.max (aend r) (aend <$> rest)).
  { apply foldr_max_ge. change (aend r2 ∈ aend <$> r :: rest).
    by apply list_elem_of_fmap_2. }
  lia.
Qed.

Lemma add_frag_lookup (d : gmap string (gset (Z * Z))) (r : AlignedRead) q :
  add_frag d r !! q
  = if decide (qname r = q)
    then Some (default ∅ (d !! qname r) ∪ {[ (pos r, aend r) ]})
    else d !! q.
Proof. unfold add_frag. apply lookup_insert. Qed.

(** The intervals filed under a query name are those of the fetched
    records with that name, and there is at least one. *)
Lemma frag_dict_lookup (rs : list AlignedRead) :
  ∀ (d : gmap string (gset (Z * Z))) q ivs,
    (∀ q' ivs', d !! q' = Some ivs' → False) →
    fold_left add_frag rs d !! q = Some ivs →
    ivs ≠ ∅
    ∧ ∀ iv, iv ∈ ivs → ∃ r, r ∈ rs ∧ qname r = q ∧ iv = (pos r, aend r).
Proof.
  intros d q ivs Hd.
  assert (Hgen : ∀ rs (d : gmap string (gset (Z * Z))) seen,
    (∀ q' ivs', d !! q' = Some ivs' →
       ivs' ≠ ∅ ∧ ∀ iv, iv ∈ ivs' →
         ∃ r, r ∈ seen ∧ qname r = q' ∧ iv = (pos r, aend r)) →
    ∀ q' ivs', fold_left add_frag rs d !! q' = Some ivs' →
       ivs' ≠ ∅ ∧ ∀ iv, iv ∈ ivs' →
         ∃ r, r ∈ seen ++ rs ∧ qname r = q' ∧ iv = (pos r, aend r)).
  { clear. induction rs as [|r rs IH]; intros d seen Hinv q' ivs'; simpl.
    - rewrite app_nil_r. apply Hinv.
    - intros Hl. replace (seen ++ r :: rs) with ((seen ++ [r]) ++ rs)
        by by rewrite <- app_assoc.
      revert Hl. apply IH. clear q' ivs'. intros q' ivs'.
      rewrite add_frag_lookup. case_decide as Hq.
      + intros [= <-]. split; [set_solver|].
        intros iv [Hiv|Hiv]%elem_of_union.
        * destruct (d !! qname r) as [old|] eqn:Hold; simpl in Hiv;
            [|by apply elem_of_empty in Hiv].
          destruct (Hinv _ _ Hold) as [_ Hall].
          destruct (Hall iv Hiv) as (r0 & Hr0 & Hq0 & ->).
          exists r0. split; [set_solver|]. split; [congruence|done].
        * apply elem_of_singleton in Hiv as ->.
          exists r. split; [set_solver|done].
      + intros Hl. destruct (Hinv _ _ Hl) as [Hne Hall]. split; [done|].
        intros iv Hiv. destruct (Hall iv Hiv) as (r0 & Hr0 & Hq0 & ->).
        exists r0. split; [set_solver|done]. }
  intros Hl. apply (Hgen rs d [] ) in Hl; [done|].
  intros q' ivs' Hq'. destruct (Hd _ _ Hq').
Qed.

Lemma add_wildtype_Ok (bp : Z) (W : gset string) (item : string * gset (Z * Z)) :
  item.2 ≠ ∅ →
  ∃ W', add_wildtype bp W item = Ok W'
        ∧ ∀ q, q ∈ W' →
               q ∈ W ∨ (q = item.1
                        ∧ ∃ a b, a ∈ item.2 ∧ b ∈ item.2 ∧ a.1 < bp ∧ bp < b.2).
Proof.
  intros Hne. unfold add_wildtype.
  pose proof (merge_sort_Permutation pair_le (elements item.2)) as Hperm.
  assert (Hin : ∀ x, x ∈ merge_sort pair_le (elements item.2) → x ∈ item.2).
  { intros x Hx. rewrite Hperm in Hx. by apply elem_of_elements. }
  destruct (merge_sort pair_le (elements item.2)) as [|x l] eqn:Hsorted.
  { symmetry in Hperm. apply Permutation_nil_r in Hperm.
    apply elements_empty_inv in Hperm. by apply leibniz_equiv in Hperm. }
  unfold list_item at 1. simpl.
  destruct (lookup_lt_is_Some_2 (x :: l) (length (x :: l) - 1)) as [y Hy];
    [simpl; lia|].
  pose proof Hy as Hy'. simpl in Hy'.
  unfold list_item. rewrite Hy'. simpl.
  case_bool_decide as Hcross; eexists; (split; [done|]); intros q Hq.
  - apply elem_of_union in Hq as [?|Hq]; [by left|].
    apply elem_of_singleton in Hq as ->.
    right. split; [done|]. exists x, y. split; [apply Hin; by left|].
    split; [apply Hin; by eapply list_elem_of_lookup_2|]. done.
  - by left.
Qed.

Lemma add_wildtype_all (bp : Z) (items : list (string * gset (Z * Z))) :
  ∀ W, Forall (λ item, item.2 ≠ ∅) items →
    ∃ W', for_each (add_wildtype bp) items W = Ok W'
          ∧ ∀ q, q ∈ W' →
                 q ∈ W ∨ ∃ ivs a b, (q, ivs) ∈ items ∧ a ∈ ivs ∧ b ∈ ivs
                                    ∧ a.1 < bp ∧ bp < b.2.
Proof.
  induction items as [|item items IH]; intros W Hne; simpl.
  - exists W. split; [done|]. by left.
  - apply Forall_cons in Hne as [Hitem Hne].
    destruct (add_wildtype_Ok bp W item Hitem) as (W1 & -> & H1). simpl.
    destruct (IH W1 Hne) as (W' & -> & H2).
    exists W'. split; [done|]. intros q Hq.
    destruct (H2 q Hq) as [Hq1|(ivs & a & b & Hin & Hrest)].
    + destruct (H1 q Hq1) as [?|(-> & a & b & Hrest)]; [by left|].
      right. exists item.2, a, b. split; [|done].
      destruct item. by left.
    + right. exists ivs, a, b. split; [by right|done].
Qed.

Section Wording.
Variable GENE_REF_PREFIX : string.

(** The source never counts a wild-type fragment that the wording "least
    start below the breakpoint, greatest end above it" would not count, so
    its ratio is never the smaller one: for a candidate with a
    non-negative fragment count, whenever the filter passes by the wording
    it passes in the source. *)
Theorem isoform_fraction_passes_when_wording_does (c : Chimera) (frac : Qc)
    (median_isize : Z) (bamfh : Samfile)
    (Hfrags : 0 ≤ num_frags c)
    (Hwording : spec_isoform_fraction GENE_REF_PREFIX c frac median_isize bamfh
                = Ok true) :
  filter_chimeric_isoform_fraction GENE_REF_PREFIX c frac median_isize bamfh
  = Ok true.
Proof.
  revert Hwording.
  unfold spec_isoform_fraction, filter_chimeric_isoform_fraction.
  destruct (list_index _ _) as [tid|e]; simpl; [|done].
  destruct (list_item _ _) as [rlen|e]; simpl; [|done].
  set (bp := p_end (partner5p c)).
  set (window := fetch bamfh _ _ _).
  set (frag_dict := fold_left add_frag window ∅).
  assert (Hdict : ∀ q ivs, frag_dict !! q = Some ivs →
            ivs ≠ ∅ ∧ ∀ iv, iv ∈ ivs →
              ∃ r, r ∈ window ∧ qname r = q ∧ iv = (pos r, aend r)).
  { intros q ivs. apply frag_dict_lookup. intros q' ivs'.
    by rewrite lookup_empty. }
  destruct (add_wildtype_all bp (map_to_list frag_dict) ∅) as (W & -> & HW).
  { apply Forall_forall. intros [q ivs] Hin%elem_of_map_to_list.
    by destruct (Hdict q ivs Hin). }
  simpl.
  assert (Hsub : W ⊆ filter (λ q, spec_straddles bp window q)
                       (list_to_set (qname <$> window) : gset string)).
  { intros q Hq. destruct (HW q Hq) as [[]%elem_of_empty|Hcross].
    destruct Hcross as (ivs & a & b & Hin%elem_of_map_to_list & Ha & Hb & Hlo & Hhi).
    destruct (Hdict q ivs Hin) as [_ Hall].
    destruct (Hall a Ha) as (r1 & Hr1 & Hq1 & ->).
    destruct (Hall b Hb) as (r2 & Hr2 & Hq2 & ->).
    apply elem_of_filter. split.
    - apply Is_true_true. by apply (spec_straddles_intro bp window q r1 r2).
    - apply elem_of_list_to_set, list_elem_of_fmap. by exists r1. }
  apply subseteq_size in Hsub.
  intros [= Hpass]. f_equal. apply bool_decide_eq_true_2.
  apply bool_decide_eq_true_1 in Hpass.
  eapply Qcle_trans; [exact Hpass|].
  unfold spec_wildtype_count. apply Qc_div_antitone; [done| |]; lia.
Qed.
End Wording.

Lemma isoform_fraction_passes_when_wording_does_witness :
  let c := mkChimera "C1" (mkPartner "TX1" 0 50 10) (mkPartner "TX2" 7 300 10)
             (Qc_of_Z 3) 1 5 (Qc_of_Z 4) in
  let window := [ mkRead 0 0 30 "f1" []; mkRead 0 40 70 "f1" [];
                  mkRead 0 5 20 "f2" []; mkRead 0 25 45 "f2" [] ] in
  filter_chimeric_isoform_fraction "gene_" c (Q2Qc (3 # 4)) 200
    (mkSamfile ["gene_TX1"] [1000] (λ _ _ _, window)) = Ok true.
Proof.
  intros c window.
  apply isoform_fraction_passes_when_wording_does.
  - simpl. lia.
  - vm_compute. reflexivity.
Defined.

End FilterChimerasMore.
